(* ===== verification/_CoqProject ===== *)
-Q . S2P
Prelude.v
FetchState.v
Debounce.v
Appwrite.v
Api.v
SearchScreen.v
Recording.v
Home.v
ListKeys.v
