(* ===== verification/Prelude.v ===== *)
(** * Verification of the Movie-app data layer: overview

    Movie-app is an Expo / React Native application.  Its search screen
    ([src/app/(tabs)/search.tsx]) debounces what the user types, then
    searches the TMDB API through a generic fetch-state hook, and records
    each search term with its first result in an Appwrite collection; its
    home screen ([src/app/(tabs)/index.tsx]) lists trending and latest
    movies through two more instances of the hook.  The
    development models the program's logic and what its screens show,
    in eight files on top of this prelude:

    - [Prelude] (this file): JavaScript values the components share.
      Strings are lists of UTF-16 code units ([jstring], literals written
      [⟪"..."⟫] in [movie_scope]); [String.prototype.trim]; template
      literals of an optional string; thrown values and promise
      settlements; [Async S A], an [async] function run to its settlement
      against the state [S] of the services it calls, with [try_catch];
      the rounding of integer additions to doubles ([js_add]), exact below
      [max_safe] = 2^53.  The hint database [movie], the rewrite database
      [movie_rw], the tactics [async_step], [zdivmod_facts] and
      [zcompare_cases], and generic lemmas on [filter], [list_find]
      and list insertion.

    - [FetchState] models [src/services/useFetch.ts].  [UseFetch] has the
      hook's state cells ([fetch_state]), [fetchData] split at its [await]
      ([fetchData_start], [fetchData_settle] with its [catch] and
      [finally]), [reset], and a configuration with the calls in flight,
      stepped by [step_event] (function) or [step] (relation); [reachable]
      is the set of configurations of a mounted hook.  [GenSpec] is the
      generation-counter controller that the design asks for, written from
      the specification's sections 3, 4.1 and 5 with state transformers of
      its own ([spec_trigger], [spec_settle], [spec_reset]).  Theorems
      ([Facts]): the refetch/resolve and refetch/reject cycles, the
      invariant of reachable configurations (rule induction), that a
      settlement after [reset] resurrects stale data (a bug), that
      overlapping calls leave a mixed state, that the hook refines
      [GenSpec] on every run where [GenSpec] drops nothing, and the
      liveness of [loading]: once every call in flight settles, it is
      false.

    - [Debounce] models the first effect of [search.tsx]: the pending
      [setTimeout] of 500 ms ([DEBOUNCE_MS]), its cleanup on each change of
      [searchQuery] and on unmount, and the callback's choice between
      [loadMovies()] and [reset()] ([on_timeout]).  [run_inputs] is the
      event loop over timestamped inputs; [commits] is the declarative
      behaviour.  Theorems ([DebounceFacts]): the event loop produces
      exactly [commits] (a refinement proved through the invariant
      [timer_of]), blank queries never search, callbacks are 500 ms apart,
      a burst gives one callback for its last value, unmount cancels.

    - [Appwrite] models [src/services/appwrite.ts].  The Appwrite client is
      the typeclass [Databases] (the interface between the recorder and the
      store); [mem_databases] is an in-memory collection that answers as
      the server does (404 on an update of a missing document, 409 on an
      identifier in use).  [updateSearchCount] is composed of [usc_query]
      and [usc_write], the segments between its [await]s, and
      [run_schedule] interleaves several calls.  Theorems
      ([AppwriteFacts]): the increment and creation branches, refinement
      of the abstract per-term counter [record_spec], preservation of one
      document per term when calls are sequential, saturation of the count
      at 2^53, propagation of every client error (for any instance of
      [Databases]), and two interleavings that duplicate a document or
      lose an increment; under every interleaving the counts keep the
      design's type, integers in [1, 2^53].

    - [Api] models [src/services/api.ts]: [encodeURIComponent] on UTF-16
      code units (a lone surrogate throws a [URIError]), the endpoint
      choice, the status check with its error message, and the JSON
      results.  [fetch] and the API key are section variables: the network
      is an oracle.  Theorems ([ApiFacts]): the error and success paths
      of [fetchMovies], the three endpoint cases, and the round trip of
      the query through the URL: the parameter [endpoint] builds holds
      only unreserved characters and percent escapes, and
      [decodeURIComponent], written from ECMAScript's [Decode] algorithm
      as the server's reading, gives back the query the user typed.

    - [SearchScreen] composes the others as [search.tsx] does: the timer
      calls the hook's [refetch] or [reset], the callback's dead
      [movies?.lenght] guard, and the effect on [movies] that calls
      [updateSearchCount(searchQuery, movies[0])]; [search_view_of] is
      what the JSX shows (loader, error, results title, list, empty
      message).  Theorems ([SearchScreenFacts]): the guard is always false,
      no blank term is ever recorded, at most one record per non-empty
      result, the two scenarios of the design for every term, result list
      and timing (proved one event at a time by the [scenario_*] lemmas),
      that a settlement records the search bar's current text, untrimmed,
      not the term searched, and that results of a search started before
      the input was cleared are listed under the empty search bar.

    - [Recording] composes [SearchScreen] with [Appwrite]: the
      [updateSearchCount] calls the [[movies]] effect fires without
      [await] ([screen_calls]) run against the collection held in memory
      under any schedule of their segments ([replay]).  Theorems
      ([RecordingFacts]): run one after the other, they refine the
      per-term counter of the design and never create a blank-term
      document; under any interleaving no count exceeds the collection's
      largest count for its term plus the searches recorded for it, by the
      invariant [bound_inv] over identifiers, counts and the listings of
      suspended calls.

    - [Home] models [src/app/(tabs)/index.tsx]: two [useFetch] hooks, one
      over [getTrendingMovies] (an import [appwrite.ts] does not export,
      so [undefined], whose call throws a [TypeError] in [fetchData]'s
      [try]) and one over [fetchMovies({query: ''})], whose result comes
      from [Api.fetchMovies]; [home_view_of] is the ternary of the JSX and
      [press_search_bar] the [router.push('/search')] of the search bar
      that only the content branch renders.  Theorems ([HomeFacts]): the
      content, and with it the way to the search screen, is never shown,
      and the view at each stage.

    - [ListKeys] models the [keyExtractor]s of the three [FlatList]s:
      [item.id.toString()] for the search results ([search_keys]) and the
      latest movies, [item.movie_id.toString()] for the trending documents
      ([home_keys]), [toString] being [Api.Z_to_dec].  Theorem
      ([ListKeysFacts]): two new search terms recorded with the same first
      movie give the trending list a repeated key, although the documents'
      identifiers stay distinct.

    Every theorem with hypotheses is applied at a concrete input where they
    hold, by a witness in the [Witnesses] module of its file.

    Bounds and fuel.  [Z_to_dec] prints an HTTP status, or a TMDB id, with
    64 digits of fuel; statuses have three digits and ids fewer than 20.  [decodeURIComponent] takes one more unit of fuel than
    its input has code units, and each step consumes at least one: the
    round trip shows the fuel is enough.  Times are unbounded integers of
    milliseconds.  Counts are unbounded integers rounded by
    [to_double_int] as IEEE doubles round them; overflow to infinity
    (beyond 2^1024) is not modelled, the saturation at 2^53 comes far
    before it.  No other model definition uses fuel: every loop is
    structural on its list.

    Not modelled.  [src/app/_layout.tsx]: [RootLayout] only configures
    [expo-router]'s [Stack] (two screen names, headers hidden) and hides
    the status bar; it has no state, operation or data of the program's
    own.  The layout of the lists ([numColumns], styles) and the cards'
    rendering ([MovieCard], [TrendingCard], not in
    [src/]); [console.log] (no observable state); the values of
    [DATABASE_ID] and [COLLECTION_ID] (opaque constants); the default
    limit of Appwrite's [listDocuments] (only the first document is read);
    React's development-mode double effects.  The home screen assumes the
    bundler's CommonJS interop, where a missing named export is
    [undefined]; a strict ES module loader would refuse the import.
    Axioms: none; every theorem is proved without assumptions beyond the
    section variables that stand for the network and the environment. *)

From stdpp Require Import base list gmap strings.
From Stdlib Require Import ZArith Lia Ascii.
From Stdlib Require String.
Export String.StringSyntax.

(** ** JavaScript values shared by every component *)

(** A JavaScript string is a sequence of UTF-16 code units; a code unit is
    an integer of [0, 65535].  Literals of the sources are written with
    [⟪ "..." ⟫], which reads an ASCII literal as its code units. *)
Abbreviation jstring := (list Z).

Definition js (s : string) : jstring :=
  map (fun a => Z.of_N (N_of_ascii a)) (String.list_ascii_of_string s).

Declare Scope movie_scope.
Delimit Scope movie_scope with movie.
Notation "⟪ s ⟫" := (js s%string) (format "⟪ s ⟫") : movie_scope.
Open Scope movie_scope.
Local Open Scope Z_scope.

(** [String.prototype.trim]: the ECMAScript WhiteSpace and LineTerminator
    code units, removed from both ends. *)
Definition is_js_space (c : Z) : bool :=
  (c =? 9) || (c =? 10) || (c =? 11) || (c =? 12) || (c =? 13) || (c =? 32)
  || (c =? 160) || (c =? 5760) || ((8192 <=? c) && (c <=? 8202))
  || (c =? 8232) || (c =? 8233) || (c =? 8239) || (c =? 8287)
  || (c =? 12288) || (c =? 65279).

Fixpoint trim_start (s : jstring) : jstring :=
  match s with
  | [] => []
  | c :: s' => if is_js_space c then trim_start s' else s
  end.

Definition trim (s : jstring) : jstring := rev (trim_start (rev (trim_start s))).

(** A template literal's substitution [${x}] of a value that is a string
    or [undefined]. *)
Definition template_opt (o : option jstring) : jstring :=
  match o with Some s => s | None => ⟪"undefined"⟫ end.

(** A JavaScript [Error] object, reduced to the field the program reads. *)
Record js_error := JsError { err_message : jstring }.

(** A thrown value: an [Error] instance, or any other value. *)
Inductive thrown :=
| ThrownError (e : js_error)
| ThrownOther (v : jstring).

(** The settlement of a promise. *)
Inductive settled (A : Type) :=
| Resolved (a : A)
| Rejected (t : thrown).
Arguments Resolved {A} a.
Arguments Rejected {A} t.

(** ** An asynchronous computation over a state

    [Async S A] runs an [async] function to its settlement against the
    state [S] of the services it calls; a rejection keeps the effects that
    happened before it. *)
Definition Async (S A : Type) : Type := S -> settled A * S.

#[export] Instance async_ret S : MRet (Async S) := fun A a s => (Resolved a, s).
#[export] Instance async_bind S : MBind (Async S) := fun A B f c s =>
  match c s with
  | (Resolved a, s') => f a s'
  | (Rejected t, s') => (Rejected t, s')
  end.

Definition throw {S A} (t : thrown) : Async S A := fun s => (Rejected t, s).

(** [try { c } catch (e) { h(e) }] *)
Definition try_catch {S A} (c : Async S A) (h : thrown -> Async S A) : Async S A :=
  fun s => match c s with
           | (Resolved a, s') => (Resolved a, s')
           | (Rejected t, s') => h t s'
           end.

(** ** JavaScript numbers on integers

    A JavaScript number is an IEEE-754 double.  On integers, an addition
    returns the exact sum rounded to the nearest double, ties to even;
    integers above 2^53 are no longer all representable.  [to_double_int]
    is that rounding (overflow to infinity, above 2^1024, is out of the
    range of the counters modelled here). *)
Definition ulp_exp (a : Z) : Z := Z.max 0 (Z.log2 a - 52).

Definition round_pos (a : Z) : Z :=
  let e := ulp_exp a in
  let u := 2 ^ e in
  let q := a / u in
  let r := a mod u in
  if e =? 0 then a
  else if r * 2 <? u then q * u
  else if u <? r * 2 then (q + 1) * u
  else if Z.even q then q * u else (q + 1) * u.

Definition to_double_int (n : Z) : Z := Z.sgn n * round_pos (Z.abs n).

(** [a + b] on two JavaScript numbers that hold integers. *)
Definition js_add (a b : Z) : Z := to_double_int (a + b).

Definition max_safe : Z := 2 ^ 53.

(** ** Automation *)

Create HintDb movie discriminated.
Create Rewrite HintDb movie_rw.

Lemma bind_resolved {S A B} (c : Async S A) (f : A -> Async S B) s a s' :
  c s = (Resolved a, s') -> (c ≫= f) s = f a s'.
Proof. intros H. unfold mbind, async_bind. by rewrite H. Qed.

Lemma bind_rejected {S A B} (c : Async S A) (f : A -> Async S B) s t s' :
  c s = (Rejected t, s') -> (c ≫= f) s = (Rejected t, s').
Proof. intros H. unfold mbind, async_bind. by rewrite H. Qed.

Lemma bind_ret {S A B} (a : A) (f : A -> Async S B) s : (mret a ≫= f) s = f a s.
Proof. reflexivity. Qed.

Lemma try_catch_resolved {S A} (c : Async S A) h s a s' :
  c s = (Resolved a, s') -> try_catch c h s = (Resolved a, s').
Proof. intros H. unfold try_catch. by rewrite H. Qed.

Lemma try_catch_rejected {S A} (c : Async S A) h s t s' :
  c s = (Rejected t, s') -> try_catch c h s = h t s'.
Proof. intros H. unfold try_catch. by rewrite H. Qed.

(** [catch (e) { ...; throw e }] leaves the settlement as it is. *)
Lemma try_catch_rethrow {S A} (c : Async S A) s :
  try_catch c (fun t => throw t) s = c s.
Proof. unfold try_catch, throw. by destruct (c s) as [[a|t] s']. Qed.

#[export] Hint Rewrite @bind_ret @try_catch_rethrow : movie_rw.

(** Unfold one step of an [Async] program whose first step is known. *)
Ltac async_step H :=
  first [ rewrite (bind_resolved _ _ _ _ _ H)
        | rewrite (bind_rejected _ _ _ _ _ H) ].

(** Division and remainder by positive constants for [lia]: adds
    [x = c * (x / c) + x mod c] and [0 <= x mod c < c] for each [x / c] and
    [x mod c] of the goal and the hypotheses. *)
Ltac zdivmod_fact x c :=
  lazymatch goal with
  | _ : x = c * (x / c) + x mod c |- _ => fail
  | _ => pose proof (Z.div_mod x c ltac:(lia)); pose proof (Z.mod_pos_bound x c ltac:(lia))
  end.

Ltac zdivmod_facts :=
  repeat match goal with
  | |- context [Z.div ?x ?c] => zdivmod_fact x c
  | |- context [Z.modulo ?x ?c] => zdivmod_fact x c
  | _ : context [Z.div ?x ?c] |- _ => zdivmod_fact x c
  | _ : context [Z.modulo ?x ?c] |- _ => zdivmod_fact x c
  end.

(** Case analysis on every comparison of integers in the goal, with its
    meaning as a hypothesis. *)
Ltac zcompare_cases :=
  repeat match goal with
  | |- context [?a <=? ?b] => destruct (Z.leb_spec a b)
  | |- context [?a <? ?b] => destruct (Z.ltb_spec a b)
  | |- context [?a =? ?b] => destruct (Z.eqb_spec a b)
  end.

(** ** Generic lemmas *)

Lemma trim_start_app_l (s t : jstring) :
  Forall (fun c => is_js_space c = true) s -> trim_start (s ++ t) = trim_start t.
Proof. induction 1 as [|c s Hc _ IH]; simpl; [done|]. by rewrite Hc. Qed.

Lemma trim_start_all_space (s : jstring) :
  Forall (fun c => is_js_space c = true) s -> trim_start s = [].
Proof. intros H. rewrite <- (app_nil_r s). by rewrite trim_start_app_l. Qed.

Lemma trim_start_nil_iff (s : jstring) :
  trim_start s = [] <-> Forall (fun c => is_js_space c = true) s.
Proof.
  split; [|apply trim_start_all_space].
  induction s as [|c s IH]; simpl; [constructor|].
  destruct (is_js_space c) eqn:E; [|done]. auto.
Qed.

Lemma trim_start_head (s r : jstring) c :
  trim_start s = c :: r -> is_js_space c = false.
Proof.
  induction s as [|x s IH]; simpl; [done|].
  destruct (is_js_space x) eqn:E; [done|]. by intros [= -> _].
Qed.

(** [trim] removes everything exactly when every code unit is a space. *)
Lemma trim_nil_iff (s : jstring) :
  trim s = [] <-> Forall (fun c => is_js_space c = true) s.
Proof.
  unfold trim. rewrite <- trim_start_nil_iff.
  split; [|by intros ->].
  intros H. apply (f_equal (@rev Z)) in H. rewrite rev_involutive in H.
  apply trim_start_nil_iff, Forall_rev in H. rewrite rev_involutive in H.
  destruct (trim_start s) as [|c r] eqn:E; [done|].
  apply trim_start_head in E. inversion H. congruence.
Qed.

(** Below 2^53 every integer is a double: the rounding is the identity. *)
Lemma round_pos_small (a : Z) : 0 <= a < max_safe -> round_pos a = a.
Proof.
  intros Ha. unfold round_pos, ulp_exp, max_safe in *.
  assert (Hl : Z.log2 a < 53).
  { destruct (Z.eq_dec a 0) as [->|Hne]; [reflexivity|].
    apply Z.log2_lt_pow2; lia. }
  replace (Z.max 0 (Z.log2 a - 52)) with 0 by lia. reflexivity.
Qed.

Lemma to_double_int_exact (n : Z) : 0 <= n <= max_safe -> to_double_int n = n.
Proof.
  intros Hn. destruct (Z.eq_dec n max_safe) as [->|Hne]; [reflexivity|].
  unfold to_double_int. rewrite Z.abs_eq, round_pos_small by lia.
  destruct (Z.eq_dec n 0) as [->|]; [reflexivity|]. rewrite Z.sgn_pos by lia. lia.
Qed.

Lemma js_add_exact (a b : Z) : 0 <= a + b <= max_safe -> js_add a b = a + b.
Proof. apply to_double_int_exact. Qed.

Lemma filter_id_Forall {A} (P : A -> Prop) `{forall x, Decision (P x)} (l : list A) :
  Forall P l -> filter P l = l.
Proof. induction 1; [done|]. rewrite filter_cons_True; congruence. Qed.

Lemma Forall_filter_weaken {A} (P Q : A -> Prop) `{forall x, Decision (Q x)} (l : list A) :
  Forall P l -> Forall P (filter Q l).
Proof. induction 1; [done|]. rewrite filter_cons. case_decide; auto. Qed.

#[export] Hint Resolve Forall_filter_weaken NoDup_filter : movie.

Lemma filter_nil_Forall {A} (P : A -> Prop) `{forall x, Decision (P x)} (l : list A) :
  filter P l = [] <-> Forall (fun x => ~ P x) l.
Proof.
  induction l as [|x l IH]; [split; done|]. rewrite filter_cons, Forall_cons.
  case_decide; [split; [done|tauto]|]. rewrite IH. tauto.
Qed.

(** The position of an element found by [list_find] behind a prefix it
    does not match. *)
Lemma list_find_middle {A} (P : A -> Prop) `{forall x, Decision (P x)} l1 x l2 :
  Forall (fun y => ~ P y) l1 -> P x -> list_find P (l1 ++ x :: l2) = Some (length l1, x).
Proof.
  intros H1 Hx. rewrite list_find_app_r by by apply list_find_None.
  simpl. rewrite decide_True by done. done.
Qed.

Lemma insert_middle {A} (l1 l2 : list A) (x y : A) :
  <[length l1 := y]> (l1 ++ x :: l2) = l1 ++ y :: l2.
Proof. rewrite <- (Nat.add_0_r (length l1)). by rewrite insert_app_r. Qed.

(** Replacing the element at [i] changes the number of elements a filter
    keeps by what the old and the new element contribute. *)
Lemma length_filter_insert {A} (P : A -> Prop) `{forall x, Decision (P x)} (l : list A) i x y :
  l !! i = Some x ->
  (length (filter P (<[i:=y]> l)) + (if decide (P x) then 1 else 0) =
   length (filter P l) + (if decide (P y) then 1 else 0))%nat.
Proof.
  intros Hi. assert (Hlt : (i < length l)%nat) by (eapply lookup_lt_Some; eauto).
  rewrite insert_take_drop by done. rewrite <- (take_drop_middle l i x Hi) at 3.
  rewrite !filter_app, !filter_cons, !length_app.
  destruct (decide (P x)), (decide (P y)); simpl; lia.
Qed.

(** Two elements of a list with the same key, where keys are unique, are
    the same element. *)
Lemma NoDup_fmap_same_key {A B} (f : A -> B) (l : list A) x y :
  NoDup (f <$> l) -> x ∈ l -> y ∈ l -> f x = f y -> x = y.
Proof.
  intros Hnd (i & Hi)%list_elem_of_lookup (j & Hj)%list_elem_of_lookup Hf.
  assert (i = j) as ->; [|congruence].
  apply (NoDup_lookup (f <$> l) i j (f x) Hnd);
    rewrite list_lookup_fmap; [by rewrite Hi|by rewrite Hj, Hf].
Qed.

