(* ===== verification/FetchState.v ===== *)
(** * The fetch-state controller: [src/services/useFetch.ts]

    The hook [useFetch] keeps three React state cells [data], [loading] and
    [error].  [fetchData] runs in two synchronous segments separated by its
    [await]: [fetchData_start] (before the producer's promise settles) and
    [fetchData_settle] (after it).  Several calls can be in flight at once;
    the configuration [config] records them, and [step_event] is one event
    of the JavaScript event loop: a call of [refetch], the settlement of an
    in-flight call, or a call of [reset].  [GenSpec] is the controller the
    design asks for (a generation counter discards stale settlements); the
    refinement theorem says where the hook agrees with it.  [reachable]
    is the set of configurations of a mounted hook, and [loading] ends
    false once every call settles. *)

From stdpp Require Import base list sets.
From Stdlib Require Import Lia.
From S2P Require Import Prelude.

Module UseFetch.
Section WithT.
Context {T : Type}.

(** [const [data, setData] = useState<T | null>(null)] and the two other
    cells. *)
Record fetch_state := FetchState {
  data : option T;
  loading : bool;
  error : option js_error;
}.

Definition initial_state : fetch_state := FetchState None false None.

Definition setData (v : option T) (s : fetch_state) : fetch_state :=
  FetchState v (loading s) (error s).
Definition setLoading (b : bool) (s : fetch_state) : fetch_state :=
  FetchState (data s) b (error s).
Definition setError (e : option js_error) (s : fetch_state) : fetch_state :=
  FetchState (data s) (loading s) e.

(** [err instanceof Error ? err : new Error('Une erreur est survenue')] *)
Definition normalize_error (t : thrown) : js_error :=
  match t with
  | ThrownError e => e
  | ThrownOther _ => JsError ⟪"Une erreur est survenue"⟫
  end.

(** [fetchData] up to [await fetchFunction()]. *)
Definition fetchData_start (s : fetch_state) : fetch_state :=
  setError None (setLoading true s).

(** [fetchData] after the promise settles: [setData(result)] or the
    [catch] block, then the [finally] block. *)
Definition fetchData_settle (o : settled T) (s : fetch_state) : fetch_state :=
  match o with
  | Resolved result => setLoading false (setData (Some result) s)
  | Rejected err => setLoading false (setError (Some (normalize_error err)) s)
  end.

Definition reset (s : fetch_state) : fetch_state :=
  setError None (setLoading false (setData None s)).

(** ** Interleaved calls *)

(** The hook's state with the calls of [fetchData] whose promise has not
    settled yet, by call number. *)
Record config := Config {
  st : fetch_state;
  inflight : list nat;
  next_call : nat;
}.

Inductive event :=
| EvRefetch
| EvSettle (call : nat) (o : settled T)
| EvReset.

Definition step_event (c : config) (e : event) : option config :=
  match e with
  | EvRefetch =>
      Some (Config (fetchData_start (st c)) (inflight c ++ [next_call c]) (S (next_call c)))
  | EvSettle k o =>
      if decide (k ∈ inflight c)
      then Some (Config (fetchData_settle o (st c)) (filter (fun j => j ≠ k) (inflight c))
                        (next_call c))
      else None
  | EvReset => Some (Config (reset (st c)) (inflight c) (next_call c))
  end.

Fixpoint run (c : config) (es : list event) : option config :=
  match es with
  | [] => Some c
  | e :: es' => match step_event c e with Some c' => run c' es' | None => None end
  end.

Definition initial_config : config := Config initial_state [] 0.

(** [useEffect(() => { if (autoFetch) fetchData(); }, [])] on mount. *)
Definition mount (autoFetch : bool) : config :=
  if autoFetch
  then Config (fetchData_start initial_state) [0] 1
  else initial_config.

(** The same events as a relation, and the configurations a mounted hook
    can reach. *)
Inductive step : config -> event -> config -> Prop :=
| step_refetch c :
    step c EvRefetch
      (Config (fetchData_start (st c)) (inflight c ++ [next_call c]) (S (next_call c)))
| step_settle c k o :
    k ∈ inflight c ->
    step c (EvSettle k o)
      (Config (fetchData_settle o (st c)) (filter (fun j => j ≠ k) (inflight c)) (next_call c))
| step_reset c :
    step c EvReset (Config (reset (st c)) (inflight c) (next_call c)).

Inductive reachable : config -> Prop :=
| reach_mount b : reachable (mount b)
| reach_step c e c' : reachable c -> step c e c' -> reachable c'.

(** The invariant of the configurations: [loading] is only set while a call
    is in flight, and call numbers are distinct and already issued. *)
Definition wf_config (c : config) : Prop :=
  (loading (st c) = true -> inflight c <> []) /\ NoDup (inflight c) /\
  Forall (fun j => j < next_call c) (inflight c).

End WithT.
Arguments config : clear implicits.
Arguments event : clear implicits.
Arguments fetch_state : clear implicits.
End UseFetch.

(** ** The controller of the design: a generation counter

    Written from the design (sections 3, 4.1 and 5 of the specification),
    not from the hook: [trigger()] sets [loading] and clears [error] before
    the producer runs; a success sets [data] and clears [loading]; a
    failure sets the normalized [error], clears [loading] and leaves
    [data]; [reset()] returns the three fields to their initial values.
    Every [trigger()] and every [reset()] starts a new generation; a call
    remembers the generation it started in, and its settlement changes the
    state only if that generation is still the current one.  The design
    leaves open the message given to a thrown value that is not an
    [Error]: it is the variable [generic]. *)
Module GenSpec.
Import UseFetch.
Section WithT.
Context {T : Type} (generic : js_error).

Record gconfig := GConfig {
  gst : fetch_state T;
  gen : nat;
  gcalls : list (nat * nat);
  gnext : nat;
}.

Definition spec_trigger (s : fetch_state T) : fetch_state T := FetchState (data s) true None.

Definition spec_normalize (t : thrown) : js_error :=
  match t with ThrownError e => e | ThrownOther _ => generic end.

Definition spec_settle (o : settled T) (s : fetch_state T) : fetch_state T :=
  match o with
  | Resolved r => FetchState (Some r) false (error s)
  | Rejected t => FetchState (data s) false (Some (spec_normalize t))
  end.

Definition spec_reset : fetch_state T := FetchState None false None.

Fixpoint call_gen (k : nat) (calls : list (nat * nat)) : option nat :=
  match calls with
  | [] => None
  | (j, gj) :: calls' => if decide (j = k) then Some gj else call_gen k calls'
  end.

(** One event; the boolean says whether a stale settlement was dropped. *)
Definition gstep (g : gconfig) (e : event T) : option (gconfig * bool) :=
  match e with
  | EvRefetch =>
      Some (GConfig (spec_trigger (gst g)) (S (gen g))
              (gcalls g ++ [(gnext g, S (gen g))]) (S (gnext g)), false)
  | EvSettle k o =>
      match call_gen k (gcalls g) with
      | None => None
      | Some gk =>
          let calls := filter (fun p => p.1 <> k) (gcalls g) in
          if decide (gk = gen g)
          then Some (GConfig (spec_settle o (gst g)) (gen g) calls (gnext g), false)
          else Some (GConfig (gst g) (gen g) calls (gnext g), true)
      end
  | EvReset => Some (GConfig spec_reset (S (gen g)) (gcalls g) (gnext g), false)
  end.

(** Runs a sequence of events and counts the dropped settlements. *)
Fixpoint grun (g : gconfig) (es : list (event T)) : option (gconfig * nat) :=
  match es with
  | [] => Some (g, 0)
  | e :: es' =>
      match gstep g e with
      | None => None
      | Some (g', dropped) =>
          match grun g' es' with
          | None => None
          | Some (g'', n) => Some (g'', (if dropped then 1 else 0) + n)
          end
      end
  end.

(** The hook's configuration and the design's agree on the state and on
    the calls in flight. *)
Definition refines (c : config T) (g : gconfig) : Prop :=
  st c = gst g /\ inflight c = map fst (gcalls g) /\ next_call c = gnext g.

End WithT.
Arguments gconfig : clear implicits.
End GenSpec.

(** ** Theorems *)
Module Facts.
Import UseFetch GenSpec.
Section WithT.
Context {T : Type}.
Implicit Types (c : config T) (g : gconfig T) (e : event T).

Lemma step_event_step c e c' : step_event c e = Some c' <-> step c e c'.
Proof.
  split.
  - destruct e as [|k o|]; simpl; [intros [= <-]; constructor| |intros [= <-]; constructor].
    case_decide; [intros [= <-]; by constructor|done].
  - destruct 1; simpl; [done| |done]. by rewrite decide_True.
Qed.

Lemma filter_fresh (l : list nat) n :
  Forall (fun j => j < n) l -> filter (fun j => j ≠ n) (l ++ [n]) = l.
Proof.
  intros Hl. rewrite filter_app, filter_cons_False by (intros H; by apply H).
  rewrite app_nil_r. apply filter_id_Forall. eapply Forall_impl; [exact Hl|]. simpl. lia.
Qed.

Lemma wf_step c e c' : wf_config c -> step c e c' -> wf_config c'.
Proof.
  intros (Hl & Hnd & Hlt) Hs. destruct Hs; simpl in *.
  - split; [intros _; by destruct (inflight c)|split].
    + apply NoDup_app. split_and!; [done| |by apply NoDup_singleton].
      intros x Hx ->%list_elem_of_singleton. eapply Forall_forall in Hlt; [|exact Hx]. lia.
    + simpl. apply Forall_app. split; [eapply Forall_impl; [exact Hlt|]; simpl; lia|].
      apply Forall_singleton. simpl. lia.
  - split; [destruct o; discriminate|split]; [by apply NoDup_filter|by apply Forall_filter_weaken].
  - split_and!; [discriminate|done|done].
Qed.

Lemma wf_mount b : wf_config (T:=T) (mount b).
Proof.
  destruct b; split_and!; simpl; try (intros; discriminate); repeat constructor.
  set_solver.
Qed.

#[local] Hint Resolve wf_mount : movie.

(** C3.  Every configuration a mounted hook reaches satisfies the invariant:
    while [loading] is true, some call of [fetchData] is in flight, and the
    calls in flight have distinct numbers. *)
Theorem reachable_wf c : reachable c -> wf_config c.
Proof. induction 1; eauto using wf_step with movie. Qed.

(** C1.  [refetch] sets [loading] and clears [error] before the producer's
    promise settles; when it resolves with [r], [data] is [r], [loading] is
    false and [error] is null, the other calls in flight untouched. *)
Theorem refetch_resolve_cycle c (r : T) :
  wf_config c ->
  run c [EvRefetch] =
    Some (Config (FetchState (data (st c)) true None) (inflight c ++ [next_call c])
            (S (next_call c))) /\
  run c [EvRefetch; EvSettle (next_call c) (Resolved r)] =
    Some (Config (FetchState (Some r) false None) (inflight c) (S (next_call c))).
Proof.
  intros (_ & _ & Hlt). split; [done|]. simpl.
  rewrite decide_True by set_solver. by rewrite filter_fresh.
Qed.

(** C2.  When the producer's promise rejects with [t], [loading] is false,
    [error] is the normalized error and [data] keeps its value from before
    the call. *)
Theorem refetch_reject_cycle c (t : thrown) :
  wf_config c ->
  run c [EvRefetch; EvSettle (next_call c) (Rejected t)] =
    Some (Config (FetchState (data (st c)) false (Some (normalize_error t)))
            (inflight c) (S (next_call c))).
Proof.
  intros (_ & _ & Hlt). simpl.
  rewrite decide_True by set_solver. by rewrite filter_fresh.
Qed.

(** C4.  [reset] does not cancel a call in flight: when a call started
    before the [reset] resolves afterwards, its result is written to [data]
    again (the design requires it to be ignored). *)
Theorem stale_settle_overwrites_reset c (r : T) :
  run c [EvRefetch; EvReset; EvSettle (next_call c) (Resolved r)] =
    Some (Config (FetchState (Some r) false None)
            (filter (fun j => j ≠ next_call c) (inflight c ++ [next_call c]))
            (S (next_call c))).
Proof. simpl. by rewrite decide_True by set_solver. Qed.

(** C5.  Two overlapping calls: when the later one rejects first, [loading]
    is false although the earlier call is still in flight; when the earlier
    one then resolves, the state holds its data together with the other
    call's error. *)
Theorem overlapping_calls_mixed_state c (r : T) (t : thrown) :
  wf_config c ->
  run c [EvRefetch; EvRefetch; EvSettle (S (next_call c)) (Rejected t)] =
    Some (Config (FetchState (data (st c)) false (Some (normalize_error t)))
            (inflight c ++ [next_call c]) (S (S (next_call c)))) /\
  run c [EvRefetch; EvRefetch; EvSettle (S (next_call c)) (Rejected t);
         EvSettle (next_call c) (Resolved r)] =
    Some (Config (FetchState (Some r) false (Some (normalize_error t)))
            (inflight c) (S (S (next_call c)))).
Proof.
  intros (_ & _ & Hlt).
  assert (Hlt' : Forall (fun j => j < S (next_call c)) (inflight c ++ [next_call c])).
  { apply Forall_app. split; [eapply Forall_impl; [exact Hlt|]; simpl; lia|].
    apply Forall_singleton. lia. }
  simpl. rewrite decide_True by set_solver.
  rewrite (filter_fresh (inflight c ++ [next_call c])) by exact Hlt'.
  split; [done|]. simpl. rewrite decide_True by set_solver.
  by rewrite filter_fresh.
Qed.

(** *** The generation-counter controller *)

Lemma call_gen_elem k calls gk : call_gen k calls = Some gk -> k ∈ map fst calls.
Proof.
  induction calls as [|[j gj] calls IH]; simpl; [done|].
  case_decide; [intros _; subst; set_solver|intros Hk; apply IH in Hk; set_solver].
Qed.

Lemma map_fst_filter (calls : list (nat * nat)) k :
  map fst (filter (fun p => p.1 ≠ k) calls) = filter (fun j => j ≠ k) (map fst calls).
Proof.
  induction calls as [|[j gj] calls IH]; [done|].
  simpl. rewrite !filter_cons. simpl. destruct (decide (j ≠ k)); simpl; by rewrite IH.
Qed.

(** The hook's three state transformers are the design's, once the
    design's open message is the hook's. *)
Lemma hook_ops_spec generic :
  (forall v, normalize_error (ThrownOther v) = generic) ->
  (forall s : fetch_state T, fetchData_start s = spec_trigger s) /\
  (forall o (s : fetch_state T), fetchData_settle o s = spec_settle generic o s) /\
  (forall s : fetch_state T, reset s = spec_reset).
Proof.
  intros Hg. split_and!; [done| |done].
  intros [r|[e|v]] s; [done|done|]. unfold fetchData_settle, spec_settle, spec_normalize. by rewrite Hg.
Qed.

Lemma gstep_refines generic c g e g' :
  (forall v, normalize_error (ThrownOther v) = generic) ->
  refines c g -> gstep generic g e = Some (g', false) ->
  exists c', step_event c e = Some c' /\ refines c' g'.
Proof.
  intros (Hs & Hse & Hr)%hook_ops_spec (Hst & Hin & Hn). destruct e as [|k o|]; simpl.
  - intros [= <-]. eexists; split; [done|]. unfold refines; simpl.
    rewrite map_app, Hs, Hst, Hin, Hn. done.
  - destruct (call_gen k (gcalls g)) as [gk|] eqn:Hk; [|done].
    case_decide; intros [= <-]. rewrite decide_True by (rewrite Hin; by eapply call_gen_elem).
    eexists; split; [done|]. unfold refines; simpl. by rewrite map_fst_filter, Hse, Hst, Hin, Hn.
  - intros [= <-]. eexists; split; [done|]. unfold refines; simpl. by rewrite Hr, Hin, Hn.
Qed.

Lemma grun_cons_inv generic g e es g'' n :
  grun generic g (e :: es) = Some (g'', n) ->
  exists g' b m, gstep generic g e = Some (g', b) /\ grun generic g' es = Some (g'', m) /\
                 n = (if b then 1 else 0) + m.
Proof.
  simpl. destruct (gstep generic g e) as [[g' b]|]; [|done].
  destruct (grun generic g' es) as [[g2 m]|] eqn:Hr; [|done]. intros Hs. injection Hs as <- <-. by exists g', b, m.
Qed.

(** C6.  Refinement: on every sequence of events on which the design's
    generation-counter controller drops no stale settlement, the hook goes
    through the same states (data, loading, error) and has the same calls
    in flight as the design's controller, whose message for a non-[Error]
    throw is the hook's. *)
Theorem hook_refines_gen_spec generic c g es g' :
  (forall v, normalize_error (ThrownOther v) = generic) ->
  refines c g -> grun generic g es = Some (g', 0) ->
  exists c', run c es = Some c' /\ refines c' g'.
Proof.
  intros Hg. revert c g. induction es as [|e es IH]; intros c g Hr Hrun.
  - injection Hrun as <-. eauto.
  - apply grun_cons_inv in Hrun as (g1 & b & m & Hs & Hrun & Hm).
    destruct b; [lia|]. simpl in Hm; subst m.
    destruct (gstep_refines _ _ _ _ _ Hg Hr Hs) as (c1 & Hc1 & Hr1).
    simpl. rewrite Hc1. by apply (IH c1 g1).
Qed.

(** ** Settling every call *)

(** Settling the calls [l], all in flight and distinct, in that order. *)
Lemma settle_list_run (f : nat -> settled T) l : forall c,
  NoDup l -> Forall (fun k => k ∈ inflight c) l ->
  exists c', run c (map (fun k => EvSettle k (f k)) l) = Some c' /\
             inflight c' = filter (fun j => j ∉ l) (inflight c) /\
             (l <> [] -> loading (st c') = false).
Proof.
  induction l as [|k l IH]; intros c Hnd Hin.
  - exists c. split_and!; [done| |done]. symmetry. apply filter_id_Forall.
    apply Forall_forall. intros x _. apply not_elem_of_nil.
  - apply NoDup_cons in Hnd as [Hk Hnd]. apply Forall_cons in Hin as [Hk' Hin]. simpl.
    rewrite decide_True by done. set (c1 := Config _ _ _).
    destruct (IH c1 Hnd) as (c' & Hr & Hi & Hl).
    { apply Forall_forall. intros x Hx. simpl. apply list_elem_of_filter.
      split; [by intros ->|by eapply Forall_forall in Hin]. }
    exists c'. split_and!; [done| |].
    + rewrite Hi. simpl. rewrite list_filter_filter. apply list_filter_iff. set_solver.
    + intros _. destruct l as [|k2 l']; [|by apply Hl].
      simpl in Hr. injection Hr as <-. simpl. by destruct (f k).
Qed.

(** C35.  Liveness of [loading]: from a well-formed configuration with
    calls in flight, once every one of them settles (whatever each
    outcome), no call is left in flight and [loading] is false. *)
Theorem settle_all_clears_loading c (f : nat -> settled T) :
  wf_config c -> inflight c <> [] ->
  exists c', run c (map (fun k => EvSettle k (f k)) (inflight c)) = Some c' /\
             inflight c' = [] /\ loading (st c') = false.
Proof.
  intros (_ & Hnd & _) Hne.
  destruct (settle_list_run f (inflight c) c Hnd) as (c' & Hr & Hi & Hl).
  { by apply Forall_forall. }
  exists c'. split_and!; [done| |by apply Hl].
  rewrite Hi. apply filter_nil_Forall, Forall_forall. intros x Hx Hn. by apply Hn.
Qed.

End WithT.
End Facts.

(** ** Witnesses: the theorems at concrete inputs *)
Module Witnesses.
Import UseFetch GenSpec Facts.

Definition title : jstring := ⟪"The Batman"⟫.

(** A hook mounted with [autoFetch = false], as on the search screen. *)
Definition idle : config jstring := mount false.

Lemma reachable_wf_witness :
  reachable (T:=jstring) (mount true) /\ wf_config (T:=jstring) (mount true).
Proof. split; [constructor|apply reachable_wf; constructor]. Defined.

Lemma refetch_resolve_cycle_witness :
  wf_config idle /\
  run idle [EvRefetch; EvSettle 0 (Resolved title)] =
    Some (Config (FetchState (Some title) false None) [] 1).
Proof.
  assert (H : wf_config idle)
    by (split_and!; [discriminate|constructor|constructor]).
  split; [exact H|exact (proj2 (refetch_resolve_cycle idle title H))].
Defined.

Lemma refetch_reject_cycle_witness :
  wf_config idle /\
  run idle [EvRefetch; EvSettle 0 (Rejected (ThrownOther ⟪"boom"⟫))] =
    Some (Config (FetchState None false (Some (JsError ⟪"Une erreur est survenue"⟫))) [] 1).
Proof.
  assert (H : wf_config idle)
    by (split_and!; [discriminate|constructor|constructor]).
  split; [exact H|exact (refetch_reject_cycle idle _ H)].
Defined.

Lemma overlapping_calls_mixed_state_witness :
  wf_config idle /\
  run idle [EvRefetch; EvRefetch; EvSettle 1 (Rejected (ThrownOther [])) ;
                     EvSettle 0 (Resolved title)] =
    Some (Config (FetchState (Some title) false
                    (Some (JsError ⟪"Une erreur est survenue"⟫))) [] 2).
Proof.
  assert (H : wf_config idle)
    by (split_and!; [discriminate|constructor|constructor]).
  split; [exact H|exact (proj2 (overlapping_calls_mixed_state idle title _ H))].
Defined.

Definition g0 : gconfig jstring := GConfig initial_state 0 [] 0.

(** The message of the [catch] block for a thrown value that is not an
    [Error]. *)
Definition generic_message : js_error := JsError ⟪"Une erreur est survenue"⟫.

Lemma hook_refines_gen_spec_witness :
  refines idle g0 /\
  grun generic_message g0 [EvRefetch; EvSettle 0 (Resolved title)] =
    Some (GConfig (FetchState (Some title) false None) 1 [] 1, 0) /\
  exists c', run idle [EvRefetch; EvSettle 0 (Resolved title)] = Some c' /\
             refines c' (GConfig (FetchState (Some title) false None) 1 [] 1).
Proof.
  assert (Hr : refines idle g0) by (split_and!; reflexivity).
  assert (Hg : grun generic_message g0 [EvRefetch; EvSettle 0 (Resolved title)] =
                 Some (GConfig (FetchState (Some title) false None) 1 [] 1, 0))
    by reflexivity.
  split_and!; [exact Hr|exact Hg|exact (hook_refines_gen_spec _ _ _ _ _ (fun v => eq_refl) Hr Hg)].
Defined.

(** Two overlapping calls, one resolving and one rejecting: once both
    have settled, [loading] is false. *)
Definition two_calls : config jstring :=
  Config (fetchData_start initial_state) [0; 1] 2.

Lemma settle_all_clears_loading_witness :
  wf_config two_calls /\ inflight two_calls <> [] /\
  exists c', run two_calls [EvSettle 0 (Resolved title); EvSettle 1 (Rejected (ThrownOther []))] = Some c' /\
             inflight c' = [] /\ loading (st c') = false.
Proof.
  assert (Hwf : wf_config two_calls).
  { split_and!; [intros; discriminate| |]; repeat constructor; set_solver. }
  split_and!; [exact Hwf|discriminate|].
  exact (settle_all_clears_loading two_calls
           (fun k => if decide (k = 0) then Resolved title else Rejected (ThrownOther []))
           Hwf ltac:(discriminate)).
Defined.

End Witnesses.
