(* ===== verification/Debounce.v ===== *)
(** * The debounce trigger: the first effect of [src/app/(tabs)/search.tsx]

    [useEffect(() => { const timeoutId = setTimeout(cb, 500);
    return () => clearTimeout(timeoutId); }, [searchQuery])]: every change
    of [searchQuery] clears the pending timeout and starts a new one, whose
    callback calls [loadMovies()] when the captured query trimmed is not
    empty and [reset()] otherwise.  Time is in milliseconds ([Z]); a trace
    is a list of timestamped inputs ([onChangeText] or the unmount of the
    screen).  Before each input, the timer fires if its deadline has come
    (a timer due at the very instant of an input fires first).  [commits]
    is the declarative behaviour: the value set at [t] is committed at
    [t + 500] exactly when the next change or the unmount comes no earlier
    than that. *)

From stdpp Require Import base list.
From Stdlib Require Import ZArith Lia.
From S2P Require Import Prelude.

Module Debounce.
Local Open Scope Z_scope.

(** [setTimeout(..., 500)] *)
Definition DEBOUNCE_MS : Z := 500.

(** What the timer's callback does. *)
Inductive action :=
| ActLoad (q : jstring)
| ActReset.

(** [if (searchQuery.trim()) { await loadMovies(); ... } else { reset(); }] *)
Definition on_timeout (q : jstring) : action :=
  match trim q with
  | [] => ActReset
  | _ :: _ => ActLoad q
  end.

(** A pending [setTimeout]: its deadline and the [searchQuery] its callback
    captured. *)
Record timer := Timer { deadline : Z; captured : jstring }.

Record dstate := DState {
  searchQuery : jstring;
  pending : option timer;
  mounted : bool;
}.

Inductive input :=
| Change (text : jstring)
| Unmount.

(** The effect body, run after a render with a new [searchQuery]. *)
Definition effect_run (now : Z) (q : jstring) : timer := Timer (now + DEBOUNCE_MS) q.

(** First render: [useState('')], then the effect. *)
Definition mount_debounce (now : Z) : dstate := DState [] (Some (effect_run now [])) true.

(** The event loop runs the timer's callback once its deadline has come. *)
Definition advance (now : Z) (s : dstate) : dstate * list (Z * action) :=
  match pending s with
  | Some t =>
      if deadline t <=? now
      then (DState (searchQuery s) None (mounted s), [(deadline t, on_timeout (captured t))])
      else (s, [])
  | None => (s, [])
  end.

(** [onChangeText={(text) => setSearchQuery(text)}]: React re-renders, and
    the effect's cleanup and body run, only when the value changes.  On
    unmount, the cleanup clears the pending timeout. *)
Definition handle (now : Z) (i : input) (s : dstate) : dstate :=
  match i with
  | Change text =>
      if mounted s then
        if decide (text = searchQuery s) then s
        else DState text (Some (effect_run now text)) true
      else s
  | Unmount => DState (searchQuery s) None false
  end.

Fixpoint run_inputs (s : dstate) (tr : list (Z * input)) : dstate * list (Z * action) :=
  match tr with
  | [] => (s, [])
  | (t, i) :: tr' =>
      let (s1, fired) := advance t s in
      let (s2, rest) := run_inputs (handle t i s1) tr' in
      (s2, fired ++ rest)
  end.

(** After the last input, time goes on: the pending timer, if any, fires. *)
Definition flush (s : dstate) : list (Z * action) :=
  match pending s with
  | Some t => [(deadline t, on_timeout (captured t))]
  | None => []
  end.

(** Every callback run from the state [s] on, inputs [tr] and then the
    quiet time after them. *)
Definition outputs (s : dstate) (tr : list (Z * input)) : list (Z * action) :=
  let (s', acts) := run_inputs s tr in acts ++ flush s'.

(** Every callback run of a screen mounted at [t0] that receives [tr]. *)
Definition debounce_actions (t0 : Z) (tr : list (Z * input)) : list (Z * action) :=
  outputs (mount_debounce t0) tr.

(** ** The declarative behaviour *)

(** The value [q0] set at [t0] commits at [t0 + 500] when nothing replaces
    it before. *)
Definition commit_if (t0 : Z) (q0 : jstring) (t : Z) : list (Z * action) :=
  if t0 + DEBOUNCE_MS <=? t then [(t0 + DEBOUNCE_MS, on_timeout q0)] else [].

Fixpoint commits (t0 : Z) (q0 : jstring) (tr : list (Z * input)) : list (Z * action) :=
  match tr with
  | [] => [(t0 + DEBOUNCE_MS, on_timeout q0)]
  | (t, Change q) :: tr' =>
      if decide (q = q0) then commits t0 q0 tr'
      else commit_if t0 q0 t ++ commits t q tr'
  | (t, Unmount) :: _ => commit_if t0 q0 t
  end.

(** Inputs arrive in time order, none before [t]. *)
Fixpoint times_from (t : Z) (tr : list (Z * input)) : bool :=
  match tr with
  | [] => true
  | (t', _) :: tr' => (t <=? t') && times_from t' tr'
  end.

(** Consecutive callback runs are at least [DEBOUNCE_MS] apart. *)
Fixpoint spaced (acts : list (Z * action)) : Prop :=
  match acts with
  | (d1, _) :: (((d2, _) :: _) as rest) => d1 + DEBOUNCE_MS <= d2 /\ spaced rest
  | _ => True
  end.

(** A burst: distinct successive values, each typed less than
    [DEBOUNCE_MS] after the previous one. *)
Fixpoint burst (t0 : Z) (q0 : jstring) (tr : list (Z * input)) : Prop :=
  match tr with
  | [] => True
  | (t, Change q) :: tr' => t0 <= t < t0 + DEBOUNCE_MS /\ q <> q0 /\ burst t q tr'
  | (_, Unmount) :: _ => False
  end.

Fixpoint last_value (t0 : Z) (q0 : jstring) (tr : list (Z * input)) : Z * jstring :=
  match tr with
  | (t, Change q) :: tr' => last_value t q tr'
  | _ => (t0, q0)
  end.

(** The actions already run from the state [s] for the value set at [t0]. *)
Definition already_fired (s : dstate) (t0 : Z) (q0 : jstring) : list (Z * action) :=
  match pending s with
  | Some _ => []
  | None => [(t0 + DEBOUNCE_MS, on_timeout q0)]
  end.

(** The timer of the state [s] is the one set for [q0] at [t0], or it has
    already fired before [tprev]. *)
Definition timer_of (s : dstate) (t0 : Z) (q0 : jstring) (tprev : Z) : Prop :=
  mounted s = true /\ searchQuery s = q0 /\
  (pending s = Some (Timer (t0 + DEBOUNCE_MS) q0) \/
   (pending s = None /\ t0 + DEBOUNCE_MS <= tprev)).

End Debounce.

(** ** Theorems *)
Module DebounceFacts.
Import Debounce.
Local Open Scope Z_scope.

(** Discharges [timer_of] for the state after an input. *)
Local Ltac timer_ok :=
  unfold timer_of; simpl; split_and!; try done;
  first [left; done | right; split; [done|lia]].

Lemma outputs_nil s : outputs s [] = flush s.
Proof. reflexivity. Qed.

Lemma outputs_cons s t i tr :
  outputs s ((t, i) :: tr) = snd (advance t s) ++ outputs (handle t i (fst (advance t s))) tr.
Proof.
  unfold outputs. simpl. destruct (advance t s) as [s1 f]. simpl.
  destruct (run_inputs (handle t i s1) tr) as [s2 r]. by rewrite app_assoc.
Qed.

(** Once unmounted with no timer pending, the screen does nothing more. *)
Lemma outputs_unmounted s tr : mounted s = false -> pending s = None -> outputs s tr = [].
Proof.
  revert s. induction tr as [|[t i] tr IH]; intros s Hm Hp.
  - by rewrite outputs_nil; unfold flush; rewrite Hp.
  - rewrite outputs_cons. unfold advance. rewrite Hp. simpl.
    apply IH; destruct i; simpl; rewrite ?Hm; auto.
Qed.

Lemma commit_if_true t0 q0 t :
  t0 + DEBOUNCE_MS <= t -> commit_if t0 q0 t = [(t0 + DEBOUNCE_MS, on_timeout q0)].
Proof. intros H. unfold commit_if. destruct (Z.leb_spec (t0 + DEBOUNCE_MS) t); [done|lia]. Qed.

Lemma commit_if_false t0 q0 t : t < t0 + DEBOUNCE_MS -> commit_if t0 q0 t = [].
Proof. intros H. unfold commit_if. destruct (Z.leb_spec (t0 + DEBOUNCE_MS) t); [lia|done]. Qed.

(** One input, from a state whose timer is the one of [q0]. *)
Lemma outputs_step s t0 q0 tprev t i tr :
  timer_of s t0 q0 tprev -> tprev <= t ->
  (forall s' t1 q1, timer_of s' t1 q1 t ->
     already_fired s' t1 q1 ++ outputs s' tr = commits t1 q1 tr) ->
  already_fired s t0 q0 ++ outputs s ((t, i) :: tr) = commits t0 q0 ((t, i) :: tr).
Proof.
  intros (Hm & Hq & Hp) Ht IH. rewrite outputs_cons.
  destruct s as [sq p m]; simpl in Hm, Hq, Hp; subst sq m.
  destruct Hp as [-> | [-> Hfired]].
  - (* the timer of q0 is pending *)
    unfold advance; simpl. destruct (Z.leb_spec (t0 + DEBOUNCE_MS) t) as [Hle|Hlt]; simpl.
    + destruct i as [q|]; simpl.
      * case_decide as Heq.
        -- subst q. rewrite <- (IH (DState q0 None true) t0 q0) by timer_ok. done.
        -- rewrite commit_if_true by done.
           rewrite <- (IH (DState q (Some (effect_run t q)) true) t q) by timer_ok.
           reflexivity.
      * rewrite outputs_unmounted by done. by rewrite commit_if_true.
    + destruct i as [q|]; simpl.
      * case_decide as Heq.
        -- subst q. rewrite <- (IH (DState q0 (Some (Timer (t0 + DEBOUNCE_MS) q0)) true) t0 q0)
             by timer_ok. done.
        -- rewrite commit_if_false by done.
           rewrite <- (IH (DState q (Some (effect_run t q)) true) t q) by timer_ok.
           reflexivity.
      * rewrite outputs_unmounted by done. by rewrite commit_if_false.
  - (* the timer of q0 has fired already *)
    unfold advance; simpl. destruct i as [q|]; simpl.
    + case_decide as Heq.
      * subst q. rewrite <- (IH (DState q0 None true) t0 q0) by timer_ok.
        done.
      * rewrite commit_if_true by lia.
        rewrite <- (IH (DState q (Some (effect_run t q)) true) t q) by timer_ok.
           reflexivity.
    + rewrite outputs_unmounted by done. rewrite commit_if_true by lia. done.
Qed.

Lemma outputs_commits tr : forall s t0 q0 tprev,
  timer_of s t0 q0 tprev -> times_from tprev tr = true ->
  already_fired s t0 q0 ++ outputs s tr = commits t0 q0 tr.
Proof.
  induction tr as [|[t i] tr IH]; intros s t0 q0 tprev Hs Htr.
  - destruct Hs as (_ & _ & [Hp | [Hp _]]);
      unfold already_fired; rewrite outputs_nil; unfold flush; rewrite Hp; done.
  - simpl in Htr. apply andb_prop in Htr as [Ht Htr]. apply Z.leb_le in Ht.
    eapply outputs_step; [exact Hs|exact Ht|]. intros. by eapply IH.
Qed.

Lemma debounce_actions_commits t0 tr :
  times_from t0 tr = true -> debounce_actions t0 tr = commits t0 [] tr.
Proof.
  intros Htr. unfold debounce_actions.
  rewrite <- (outputs_commits tr (mount_debounce t0) t0 [] t0); [done| |done].
  split_and!; auto.
Qed.

(** C7.  Refinement: the callback runs of the search screen, mounted at
    [t0] and receiving inputs in time order, are exactly the declarative
    commits: the value set at [t] runs its callback at [t + 500] when the
    next change, or the unmount, comes no earlier than that; the mount
    itself sets the value [''].  *)
Theorem debounce_matches_commits t0 tr :
  times_from t0 tr = true -> debounce_actions t0 tr = commits t0 [] tr.
Proof. apply debounce_actions_commits. Qed.

(** The callback resets instead of searching exactly when the query it
    captured is made of white space only (or is empty). *)
Theorem on_timeout_reset_iff q :
  on_timeout q = ActReset <-> Forall (fun c => is_js_space c = true) q.
Proof.
  rewrite <- trim_nil_iff. unfold on_timeout. by destruct (trim q).
Qed.

Lemma advance_actions t s :
  Forall (fun a => exists q, a.2 = on_timeout q) (snd (advance t s)).
Proof.
  unfold advance. destruct (pending s) as [tm|]; [|constructor].
  destruct (deadline tm <=? t); simpl; repeat constructor. eauto.
Qed.

Lemma outputs_actions s tr :
  Forall (fun a => exists q, a.2 = on_timeout q) (outputs s tr).
Proof.
  revert s. induction tr as [|[t i] tr IH]; intros s.
  - rewrite outputs_nil. unfold flush. destruct (pending s); repeat constructor. eauto.
  - rewrite outputs_cons. apply Forall_app. split; [apply advance_actions|apply IH].
Qed.

Lemma on_timeout_load q q' : on_timeout q = ActLoad q' -> q' = q /\ trim q <> [].
Proof. unfold on_timeout. destruct (trim q); [done|]. by intros [= ->]. Qed.

(** C9.  Whatever the inputs, the screen never searches for a query that is
    empty or white space only. *)
Theorem debounce_never_loads_blank t0 tr :
  Forall (fun a => forall q, a.2 = ActLoad q -> trim q <> []) (debounce_actions t0 tr).
Proof.
  eapply Forall_impl; [apply outputs_actions|].
  intros a [q Hq] q' Hl. rewrite Hl in Hq. symmetry in Hq.
  by destruct (on_timeout_load _ _ Hq) as [-> ?].
Qed.

Lemma times_from_weaken t t' tr : t <= t' -> times_from t' tr = true -> times_from t tr = true.
Proof.
  destruct tr as [|[t1 i] tr]; [done|]. simpl. intros Hle [H1 H2]%andb_prop.
  apply andb_true_intro. split; [apply Z.leb_le; apply Z.leb_le in H1; lia|done].
Qed.

Lemma commit_if_after t0 q0 t : Forall (fun a => t0 + DEBOUNCE_MS <= a.1) (commit_if t0 q0 t).
Proof. unfold commit_if. destruct (_ <=? _); repeat constructor. simpl. lia. Qed.

Lemma commit_if_before t0 q0 t : Forall (fun a => a.1 <= t) (commit_if t0 q0 t).
Proof.
  unfold commit_if. destruct (Z.leb_spec (t0 + DEBOUNCE_MS) t); repeat constructor. simpl. lia.
Qed.

Lemma commits_after tr : forall t0 q0,
  times_from t0 tr = true -> Forall (fun a => t0 + DEBOUNCE_MS <= a.1) (commits t0 q0 tr).
Proof.
  induction tr as [|[t [q|]] tr IH]; intros t0 q0 Htr; simpl in *.
  - repeat constructor. simpl. lia.
  - apply andb_prop in Htr as [Ht Htr]. apply Z.leb_le in Ht. case_decide.
    + apply IH. by eapply times_from_weaken.
    + apply Forall_app. split; [apply commit_if_after|].
      eapply Forall_impl; [by apply IH|]. simpl. lia.
  - apply commit_if_after.
Qed.

Lemma spaced_cons d a rest :
  Forall (fun b => d + DEBOUNCE_MS <= b.1) rest -> spaced rest -> spaced ((d, a) :: rest).
Proof. destruct rest as [|[d2 a2] rest]; [done|]. intros Hf Hs. inversion Hf. by split. Qed.

Lemma commits_spaced tr : forall t0 q0, times_from t0 tr = true -> spaced (commits t0 q0 tr).
Proof.
  induction tr as [|[t [q|]] tr IH]; intros t0 q0 Htr; simpl in *.
  - done.
  - apply andb_prop in Htr as [Ht Htr]. apply Z.leb_le in Ht. case_decide.
    + apply IH. by eapply times_from_weaken.
    + destruct (Z.leb_spec (t0 + DEBOUNCE_MS) t).
      * rewrite commit_if_true by done. cbn [app].
        apply spaced_cons; [|by apply IH].
        eapply Forall_impl; [by apply commits_after|]. simpl. lia.
      * rewrite commit_if_false by done. by apply IH.
  - unfold commit_if. destruct (t0 + DEBOUNCE_MS <=? t); exact I.
Qed.

(** C10.  At most one callback run per quiet period: when the inputs come
    in time order, consecutive runs of the callback are at least 500 ms
    apart. *)
Theorem debounce_spaced t0 tr :
  times_from t0 tr = true -> spaced (debounce_actions t0 tr).
Proof. intros Htr. rewrite debounce_actions_commits by done. by apply commits_spaced. Qed.

Lemma commits_burst tr : forall t0 q0,
  burst t0 q0 tr ->
  commits t0 q0 tr = [((last_value t0 q0 tr).1 + DEBOUNCE_MS, on_timeout (last_value t0 q0 tr).2)].
Proof.
  induction tr as [|[t [q|]] tr IH]; intros t0 q0 Hb; simpl in *; [done| |done].
  destruct Hb as (Ht & Hq & Hb). rewrite decide_False by done.
  rewrite commit_if_false by lia. by apply IH.
Qed.

(** C11.  A burst of changes, each less than 500 ms after the previous one
    (the first less than 500 ms after the mount), followed by quiet, runs
    the callback exactly once, 500 ms after the last change and for the last
    value: neither the mount's empty value nor any intermediate value runs
    it. *)
Theorem debounce_burst_single t0 tr :
  times_from t0 tr = true -> burst t0 [] tr ->
  debounce_actions t0 tr =
    [((last_value t0 [] tr).1 + DEBOUNCE_MS, on_timeout (last_value t0 [] tr).2)].
Proof. intros Htr Hb. rewrite debounce_actions_commits by done. by apply commits_burst. Qed.

Lemma times_from_le t tr1 tu i tr2 :
  times_from t (tr1 ++ (tu, i) :: tr2) = true -> t <= tu.
Proof.
  revert t. induction tr1 as [|[t' i'] tr1 IH]; intros t Htr; simpl in *;
    apply andb_prop in Htr as [H1 H2]; apply Z.leb_le in H1; [done|].
  specialize (IH _ H2). lia.
Qed.

Lemma commits_unmount tu tr2 tr1 : forall t0 q0,
  times_from t0 (tr1 ++ (tu, Unmount) :: tr2) = true ->
  Forall (fun a => a.1 <= tu) (commits t0 q0 (tr1 ++ (tu, Unmount) :: tr2)).
Proof.
  induction tr1 as [|[t [q|]] tr1 IH]; intros t0 q0 Htr; simpl in *.
  - apply commit_if_before.
  - apply andb_prop in Htr as [Ht Htr]. apply Z.leb_le in Ht.
    pose proof (times_from_le _ _ _ _ _ Htr) as Htu.
    case_decide.
    + apply IH. by eapply times_from_weaken.
    + apply Forall_app. split; [|by apply IH].
      eapply Forall_impl; [apply commit_if_before|]. simpl. lia.
  - apply andb_prop in Htr as [_ Htr]. pose proof (times_from_le _ _ _ _ _ Htr) as Htu.
    eapply Forall_impl; [apply commit_if_before|]. simpl. lia.
Qed.

(** C12.  Unmounting cancels the pending timer: when the screen is unmounted
    at [tu], no callback runs after [tu], whatever inputs follow. *)
Theorem debounce_unmount_cancels t0 tr1 tu tr2 :
  times_from t0 (tr1 ++ (tu, Unmount) :: tr2) = true ->
  Forall (fun a => a.1 <= tu) (debounce_actions t0 (tr1 ++ (tu, Unmount) :: tr2)).
Proof. intros Htr. rewrite debounce_actions_commits by done. by apply commits_unmount. Qed.

End DebounceFacts.

(** ** Witnesses *)
Module DebounceWitnesses.
Import Debounce DebounceFacts.
Local Open Scope Z_scope.

(** Typing "batman" one letter every 100 ms, one second after the mount. *)
Definition typing : list (Z * input) :=
  [(1000, Change ⟪"b"⟫); (1100, Change ⟪"ba"⟫); (1200, Change ⟪"bat"⟫);
   (1300, Change ⟪"batm"⟫); (1400, Change ⟪"batma"⟫); (1500, Change ⟪"batman"⟫)].

Lemma debounce_matches_commits_witness :
  times_from 0 typing = true /\
  debounce_actions 0 typing = [(500, ActReset); (2000, ActLoad ⟪"batman"⟫)].
Proof.
  split; [reflexivity|]. rewrite (debounce_matches_commits 0 typing eq_refl). reflexivity.
Defined.

Lemma debounce_spaced_witness :
  times_from 0 typing = true /\ spaced (debounce_actions 0 typing).
Proof. split; [reflexivity|exact (debounce_spaced 0 typing eq_refl)]. Defined.

(** Typing starts 200 ms after the mount: the mount's reset never runs. *)
Definition quick_typing : list (Z * input) :=
  [(200, Change ⟪"bat"⟫); (450, Change ⟪"batman"⟫)].

Lemma debounce_burst_single_witness :
  times_from 0 quick_typing = true /\ burst 0 [] quick_typing /\
  debounce_actions 0 quick_typing = [(950, ActLoad ⟪"batman"⟫)].
Proof.
  assert (Hb : burst 0 [] quick_typing)
    by (simpl; split_and!; try lia; try discriminate; done).
  split_and!; [reflexivity|exact Hb|].
  exact (debounce_burst_single 0 quick_typing eq_refl Hb).
Defined.

(** The screen is left 300 ms after the last key stroke. *)
Lemma debounce_unmount_cancels_witness :
  times_from 0 (typing ++ (1800, Unmount) :: [(3000, Change ⟪"x"⟫)]) = true /\
  Forall (fun a => a.1 <= 1800) (debounce_actions 0 (typing ++ (1800, Unmount) :: [(3000, Change ⟪"x"⟫)])).
Proof.
  split; [reflexivity|exact (debounce_unmount_cancels 0 typing 1800 [(3000, Change ⟪"x"⟫)] eq_refl)].
Defined.

End DebounceWitnesses.
