(* ===== verification/Appwrite.v ===== *)
(** * The search-analytics recorder: [src/services/appwrite.ts]

    [updateSearchCount(query, movie)] lists the documents of the collection
    whose [searchTerm] equals [query]; when there is one, it writes the
    first one's [count + 1] back, otherwise it creates a document with
    [count: 1].  Errors are logged and rethrown.

    The Appwrite client [database] is the typeclass [Databases]: the
    recorder is written, and its error behaviour proved, against it.  The
    instance [mem_databases] is the collection as an ordered list of
    documents (the server's default order); it rejects an update of a
    missing document (404) and a creation with an identifier in use (409).
    [ID.unique()] is nondeterministic: the identifier it returns is an
    argument [newid] of [updateSearchCount].  [updateSearchCount] runs in
    two segments separated by its [await]s ([usc_query], [usc_write]);
    [run_schedule] interleaves several calls segment by segment;
    [count_typed] is the type of a count the design gives, kept under
    every schedule. *)

From stdpp Require Import base list sets.
From Stdlib Require Import ZArith Lia.
From S2P Require Import Prelude.

Module Movie.
(** [type Movie = { id: number; title: string; poster_path?: string }] *)
Record t := MkMovie { id : Z; title : jstring; poster_path : option jstring }.
End Movie.

Module Appwrite.
Local Open Scope Z_scope.

(** A document of the collection, with the attributes the code writes. *)
Record document := Document {
  doc_id : jstring;
  searchTerm : jstring;
  movie_id : Z;
  count : Z;
  title : jstring;
  poster_url : jstring;
}.

(** [Query.equal(attribute, value)] *)
Inductive query := QueryEqual (attribute : jstring) (value : jstring).

(** The operations of the Appwrite [Databases] client that the code calls,
    over the state [S] of the remote store. *)
Class Databases (S : Type) := {
  listDocuments : list query -> Async S (list document);
  updateDocumentCount : jstring -> Z -> Async S document;
  createDocument : document -> Async S document;
}.

Definition IMAGE_BASE : jstring := ⟪"https://image.tmdb.org/t/p/w500"⟫.

(** [`https://image.tmdb.org/t/p/w500${movie.poster_path}`] *)
Definition poster_url_of (movie : Movie.t) : jstring :=
  IMAGE_BASE ++ template_opt (Movie.poster_path movie).

(** The object passed to [createDocument]. *)
Definition new_document (newid q : jstring) (movie : Movie.t) : document :=
  Document newid q (Movie.id movie) 1 (Movie.title movie) (poster_url_of movie).

Section Recorder.
Context {S : Type} `{Databases S}.

(** [await database.listDocuments(DATABASE_ID, COLLECTION_ID,
    [Query.equal('searchTerm', query)])] *)
Definition usc_query (q : jstring) : Async S (list document) :=
  listDocuments [QueryEqual ⟪"searchTerm"⟫ q].

(** The rest of the [try] block, once the list is known. *)
Definition usc_write (newid q : jstring) (movie : Movie.t) (documents : list document)
    : Async S unit :=
  match documents with
  | existingMovie :: _ =>
      _ ← updateDocumentCount (doc_id existingMovie) (js_add (count existingMovie) 1);
      mret tt
  | [] =>
      _ ← createDocument (new_document newid q movie);
      mret tt
  end.

(** [updateSearchCount(query, movie)]; [newid] is the value of
    [ID.unique()]. The [catch] block logs the error and rethrows it. *)
Definition updateSearchCount (newid q : jstring) (movie : Movie.t) : Async S unit :=
  try_catch (result ← usc_query q; usc_write newid q movie result)
            (fun error => throw error).

End Recorder.

(** ** The collection held in memory *)

Definition matches (qs : list query) (d : document) : bool :=
  forallb (fun '(QueryEqual a v) =>
             if decide (a = ⟪"searchTerm"⟫) then bool_decide (searchTerm d = v) else false) qs.

Definition not_found : thrown :=
  ThrownError (JsError ⟪"Document with the requested ID could not be found."⟫).
Definition already_exists : thrown :=
  ThrownError (JsError ⟪"Document with the requested ID already exists."⟫).

Definition set_count (c : Z) (d : document) : document :=
  Document (doc_id d) (searchTerm d) (movie_id d) c (title d) (poster_url d).

Definition mem_list (qs : list query) : Async (list document) (list document) :=
  fun docs => (Resolved (filter (fun d => matches qs d = true) docs), docs).

Definition mem_update (i : jstring) (c : Z) : Async (list document) document :=
  fun docs =>
    match list_find (fun d => doc_id d = i) docs with
    | Some (k, d) => (Resolved (set_count c d), <[k := set_count c d]> docs)
    | None => (Rejected not_found, docs)
    end.

Definition mem_create (d : document) : Async (list document) document :=
  fun docs =>
    if decide (doc_id d ∈ doc_id <$> docs) then (Rejected already_exists, docs)
    else (Resolved d, docs ++ [d]).

#[export] Instance mem_databases : Databases (list document) := {
  listDocuments := mem_list;
  updateDocumentCount := mem_update;
  createDocument := mem_create;
}.

(** ** The abstract counter *)

(** The count the application sees for a term: the first matching
    document's, or 0. *)
Definition term_count (docs : list document) (q : jstring) : Z :=
  match filter (fun d => searchTerm d = q) docs with
  | d :: _ => count d
  | [] => 0
  end.

(** The specification: recording [q] adds one to its count. *)
Definition record_spec (counts : jstring -> Z) (q : jstring) : jstring -> Z :=
  fun q' => if decide (q' = q) then counts q + 1 else counts q'.

Definition ids_unique (docs : list document) : Prop := NoDup (doc_id <$> docs).
Definition terms_unique (docs : list document) : Prop := NoDup (searchTerm <$> docs).

(** ** Interleaved calls *)

Record call := Call { call_newid : jstring; call_query : jstring; call_movie : Movie.t }.

(** Where a call of [updateSearchCount] stands. *)
Inductive phase :=
| Idle
| Queried (r : settled (list document))
| Finished (r : settled unit).

(** The next segment of a call. *)
Definition step_call (c : call) (p : phase) (docs : list document)
    : phase * list document :=
  match p with
  | Idle => let (r, docs') := usc_query (call_query c) docs in (Queried r, docs')
  | Queried (Resolved documents) =>
      let (r, docs') := usc_write (call_newid c) (call_query c) (call_movie c) documents docs in
      (Finished r, docs')
  | Queried (Rejected t) => (Finished (Rejected t), docs)
  | Finished r => (Finished r, docs)
  end.

(** The scheduler runs, in turn, one segment of the call it names. *)
Fixpoint run_schedule (calls : list call) (phases : list phase) (sched : list nat)
    (docs : list document) : list phase * list document :=
  match sched with
  | [] => (phases, docs)
  | i :: sched' =>
      match calls !! i, phases !! i with
      | Some c, Some p =>
          let (p', docs') := step_call c p docs in
          run_schedule calls (<[i := p']> phases) sched' docs'
      | _, _ => run_schedule calls phases sched' docs
      end
  end.

(** The type of [count] in a [SearchRecord] of the design, an integer
    [>= 1], as a JavaScript number: at most 2^53, where [count + 1]
    stops growing. *)
Definition count_typed (d : document) : Prop := 1 <= count d <= max_safe.

(** The listing a suspended call holds is typed too. *)
Definition phase_typed (p : phase) : Prop :=
  match p with
  | Queried (Resolved ds) => Forall count_typed ds
  | _ => True
  end.

End Appwrite.

(** ** Theorems *)
Module AppwriteFacts.
Import Appwrite.
Local Open Scope Z_scope.

Lemma matches_searchTerm q d :
  matches [QueryEqual ⟪"searchTerm"⟫ q] d = true <-> searchTerm d = q.
Proof.
  unfold matches. cbn [forallb]. rewrite decide_True by done. rewrite andb_true_r.
  apply bool_decide_eq_true.
Qed.

Lemma mem_usc_query q (docs : list document) :
  usc_query q docs = (Resolved (filter (fun d => searchTerm d = q) docs), docs).
Proof.
  unfold usc_query. simpl. unfold mem_list. do 3 f_equal.
  apply list_filter_iff. intros d. apply matches_searchTerm.
Qed.

(** On the collection in memory, a call is its [try] block with the list
    of the documents for the term. *)
Lemma mem_updateSearchCount newid q m (docs : list document) :
  updateSearchCount newid q m docs =
    usc_write newid q m (filter (fun d => searchTerm d = q) docs) docs.
Proof.
  unfold updateSearchCount. rewrite try_catch_rethrow.
  apply (bind_resolved _ _ _ _ _ (mem_usc_query q docs)).
Qed.

Lemma ids_unique_middle l1 d l2 :
  ids_unique (l1 ++ d :: l2) -> Forall (fun y => doc_id y ≠ doc_id d) l1.
Proof.
  unfold ids_unique. rewrite fmap_app, NoDup_app. intros (_ & Hdisj & _).
  apply Forall_forall. intros y Hy Heq. apply (Hdisj (doc_id y)).
  - apply list_elem_of_fmap. eauto.
  - rewrite Heq. simpl. set_solver.
Qed.

Lemma mem_update_middle l1 e l2 i c :
  Forall (fun y => doc_id y ≠ i) l1 -> doc_id e = i ->
  mem_update i c (l1 ++ e :: l2) = (Resolved (set_count c e), l1 ++ set_count c e :: l2).
Proof.
  intros H1 He. unfold mem_update.
  rewrite (list_find_middle _ l1 e l2); [|done|done]. by rewrite insert_middle.
Qed.

(** The [try] block when the list has a first document [d]: the update
    goes to the document [e] of the collection that has [d]'s identifier
    (the listing may be older than the collection). *)
Lemma usc_write_update newid q m d rest l1 e l2 :
  Forall (fun y => doc_id y ≠ doc_id d) l1 -> doc_id e = doc_id d ->
  usc_write newid q m (d :: rest) (l1 ++ e :: l2) =
    (Resolved tt, l1 ++ set_count (js_add (count d) 1) e :: l2).
Proof.
  intros H1 He. unfold usc_write.
  assert (Hc : updateDocumentCount (doc_id d) (js_add (count d) 1) (l1 ++ e :: l2) =
                 (Resolved (set_count (js_add (count d) 1) e),
                  l1 ++ set_count (js_add (count d) 1) e :: l2))
    by (by apply mem_update_middle).
  by rewrite (bind_resolved _ _ _ _ _ Hc).
Qed.

(** The [try] block when the list is empty. *)
Lemma usc_write_create newid q m (docs : list document) :
  newid ∉ doc_id <$> docs ->
  usc_write newid q m [] docs = (Resolved tt, docs ++ [new_document newid q m]).
Proof.
  intros Hid. unfold usc_write.
  assert (Hc : createDocument (new_document newid q m) docs =
                 (Resolved (new_document newid q m), docs ++ [new_document newid q m]))
    by (simpl; unfold mem_create; by rewrite decide_False).
  by rewrite (bind_resolved _ _ _ _ _ Hc).
Qed.

Lemma filter_first q l1 d l2 :
  Forall (fun x => searchTerm x ≠ q) l1 -> searchTerm d = q ->
  filter (fun x => searchTerm x = q) (l1 ++ d :: l2) = d :: filter (fun x => searchTerm x = q) l2.
Proof.
  intros H1 Hd. rewrite filter_app, filter_cons_True by done.
  by rewrite (proj2 (filter_nil_Forall _ l1) H1).
Qed.

Lemma usc_first_doc newid q m l1 d l2 :
  ids_unique (l1 ++ d :: l2) -> searchTerm d = q -> Forall (fun x => searchTerm x ≠ q) l1 ->
  updateSearchCount newid q m (l1 ++ d :: l2) =
    (Resolved tt, l1 ++ set_count (js_add (count d) 1) d :: l2).
Proof.
  intros Hu Hd H1. rewrite mem_updateSearchCount, filter_first by done.
  apply usc_write_update; [by apply (ids_unique_middle _ _ l2)|done].
Qed.

Lemma usc_new_doc newid q m (docs : list document) :
  filter (fun d => searchTerm d = q) docs = [] -> newid ∉ doc_id <$> docs ->
  updateSearchCount newid q m docs = (Resolved tt, docs ++ [new_document newid q m]).
Proof.
  intros Hq Hid. rewrite mem_updateSearchCount, Hq. by apply usc_write_create.
Qed.

(** C13.  When the collection has documents for the term, the call
    increments the first one's [count] by one (as a JavaScript number) and
    changes nothing else: no other field, no other document. *)
Theorem usc_increments_first newid q m l1 d l2 :
  ids_unique (l1 ++ d :: l2) -> searchTerm d = q -> Forall (fun x => searchTerm x ≠ q) l1 ->
  updateSearchCount newid q m (l1 ++ d :: l2) =
    (Resolved tt, l1 ++ set_count (js_add (count d) 1) d :: l2).
Proof. apply usc_first_doc. Qed.

(** C14.  When the collection has no document for the term, the call
    appends one with [count] 1, the movie's [id] and [title], and the
    poster URL built from the movie's [poster_path]. *)
Theorem usc_creates_document newid q m (docs : list document) :
  filter (fun d => searchTerm d = q) docs = [] -> newid ∉ doc_id <$> docs ->
  updateSearchCount newid q m docs = (Resolved tt, docs ++ [new_document newid q m]).
Proof. apply usc_new_doc. Qed.

Lemma first_match q (docs : list document) d rest :
  filter (fun x => searchTerm x = q) docs = d :: rest ->
  exists l1 l2, docs = l1 ++ d :: l2 /\ Forall (fun x => searchTerm x ≠ q) l1 /\ searchTerm d = q.
Proof.
  intros Hf. assert (Hd : d ∈ filter (fun x => searchTerm x = q) docs) by (rewrite Hf; left).
  apply list_elem_of_filter in Hd as [Hd _].
  destruct (head_filter_Some (fun x => searchTerm x = q) docs d) as (l1 & l2 & -> & H1);
    [by rewrite Hf|]. eauto.
Qed.

Lemma term_count_create (docs : list document) nd q' :
  filter (fun d => searchTerm d = searchTerm nd) docs = [] ->
  term_count (docs ++ [nd]) q' =
    if decide (q' = searchTerm nd) then count nd else term_count docs q'.
Proof.
  intros Hf. unfold term_count. rewrite filter_app. case_decide as Hq.
  - subst q'. rewrite Hf. simpl. by rewrite filter_cons_True.
  - rewrite filter_cons_False, filter_nil, app_nil_r by congruence. done.
Qed.

Lemma term_count_replace l1 d d' l2 q' :
  searchTerm d' = searchTerm d -> Forall (fun x => searchTerm x ≠ searchTerm d) l1 ->
  term_count (l1 ++ d' :: l2) q' =
    if decide (q' = searchTerm d) then count d' else term_count (l1 ++ d :: l2) q'.
Proof.
  intros Ht H1. unfold term_count. rewrite !filter_app, !filter_cons, Ht.
  destruct (decide (q' = searchTerm d)) as [->|Hq].
  - rewrite (proj2 (filter_nil_Forall _ l1) H1), !decide_True by done. done.
  - rewrite !decide_False by congruence. done.
Qed.

Lemma ids_unique_set_count l1 d l2 c :
  ids_unique (l1 ++ d :: l2) -> ids_unique (l1 ++ set_count c d :: l2).
Proof. unfold ids_unique. by rewrite !fmap_app. Qed.

Lemma ids_unique_snoc (docs : list document) nd :
  ids_unique docs -> doc_id nd ∉ doc_id <$> docs -> ids_unique (docs ++ [nd]).
Proof.
  unfold ids_unique. rewrite fmap_app. intros Hu Hn. apply NoDup_app.
  split_and!; [done| |by apply NoDup_singleton]. simpl. set_solver.
Qed.

(** One call on a collection with unique identifiers, a fresh
    [ID.unique()] and a count below 2^53: it resolves, keeps identifiers
    unique, adds no identifier but [newid], and moves the counts as
    [record_spec]. *)
Lemma usc_counter_step newid q m (docs : list document) :
  ids_unique docs -> newid ∉ doc_id <$> docs -> 0 <= term_count docs q < max_safe ->
  exists docs', updateSearchCount newid q m docs = (Resolved tt, docs') /\
    ids_unique docs' /\ doc_id <$> docs' ⊆ newid :: (doc_id <$> docs) /\
    forall q', term_count docs' q' = record_spec (term_count docs) q q'.
Proof.
  intros Hu Hid Hc. unfold record_spec.
  destruct (filter (fun d => searchTerm d = q) docs) as [|d rest] eqn:Hf.
  - exists (docs ++ [new_document newid q m]).
    split_and!; [by apply usc_new_doc|by apply ids_unique_snoc|rewrite fmap_app; set_solver|].
    intros q'. rewrite term_count_create by done. simpl.
    assert (H0 : term_count docs q = 0) by (unfold term_count; by rewrite Hf).
    case_decide; [lia|done].
  - destruct (first_match _ _ _ _ Hf) as (l1 & l2 & -> & H1 & Hd).
    assert (Hcd : term_count (l1 ++ d :: l2) q = count d) by (unfold term_count; by rewrite Hf).
    exists (l1 ++ set_count (js_add (count d) 1) d :: l2).
    split_and!; [by apply usc_first_doc|by apply ids_unique_set_count|rewrite !fmap_app; set_solver|].
    intros q'. rewrite (term_count_replace l1 d) by (subst; done). simpl. subst q.
    case_decide; [|done]. rewrite js_add_exact by lia. lia.
Qed.

(** C15.  Refinement of the abstract counter: on a collection whose document
    identifiers are unique, with a fresh [ID.unique()] and a count below
    2^53, a call resolves, keeps the identifiers unique, and changes the
    count the application sees for each term exactly as [record_spec]: one
    more for the recorded term, the same for every other term. *)
Theorem usc_refines_counter newid q m (docs : list document) :
  ids_unique docs -> newid ∉ doc_id <$> docs -> 0 <= term_count docs q < max_safe ->
  exists docs', updateSearchCount newid q m docs = (Resolved tt, docs') /\
    ids_unique docs' /\ forall q', term_count docs' q' = record_spec (term_count docs) q q'.
Proof.
  intros Hu Hid Hc. destruct (usc_counter_step newid q m docs Hu Hid Hc) as (docs' & ? & ? & _ & ?).
  by exists docs'.
Qed.

(** C16.  Invariant: calls made one after the other keep one document per
    search term (and unique identifiers), when each gets a fresh
    [ID.unique()]. *)
Theorem usc_preserves_unique_terms newid q m (docs : list document) :
  terms_unique docs -> ids_unique docs -> newid ∉ doc_id <$> docs ->
  exists docs', updateSearchCount newid q m docs = (Resolved tt, docs') /\
    terms_unique docs' /\ ids_unique docs'.
Proof.
  intros Ht Hu Hid.
  destruct (filter (fun d => searchTerm d = q) docs) as [|d rest] eqn:Hf.
  - exists (docs ++ [new_document newid q m]).
    split_and!; [by apply usc_new_doc| |by apply ids_unique_snoc].
    unfold terms_unique. rewrite fmap_app. apply NoDup_app. split_and!; [done| |constructor; [set_solver|constructor]].
    intros x Hx ->%list_elem_of_singleton. apply list_elem_of_fmap in Hx as (y & Hy & Hin).
    apply filter_nil_Forall in Hf. eapply Forall_forall in Hf; [|exact Hin]. simpl in Hy. auto.
  - destruct (first_match _ _ _ _ Hf) as (l1 & l2 & -> & H1 & Hd).
    exists (l1 ++ set_count (js_add (count d) 1) d :: l2).
    split_and!; [by apply usc_first_doc| |by apply ids_unique_set_count].
    unfold terms_unique in *. rewrite fmap_app in *. exact Ht.
Qed.

(** C17.  Bounds: [count] is a JavaScript number; once a term's count
    reaches 2^53, [count + 1] rounds back to 2^53 and the call leaves the
    collection unchanged: the counter saturates. *)
Theorem usc_count_saturates newid q m l1 d l2 :
  ids_unique (l1 ++ d :: l2) -> searchTerm d = q -> Forall (fun x => searchTerm x ≠ q) l1 ->
  count d = max_safe ->
  updateSearchCount newid q m (l1 ++ d :: l2) = (Resolved tt, l1 ++ d :: l2).
Proof.
  intros Hu Hd H1 Hc. rewrite usc_first_doc by done. rewrite Hc.
  replace (js_add max_safe 1) with max_safe by reflexivity.
  rewrite <- Hc. by destruct d.
Qed.

Section AnyStore.
Context {S : Type} `{Databases S}.

(** C18.  Errors: whatever the store, a call rejects exactly when the
    listing rejects, or the listing resolves and the update or creation
    that follows rejects, and then with the same error and the same store
    state: the [catch] block rethrows it unchanged. *)
Theorem usc_error_propagates newid q m (s s' : S) t :
  updateSearchCount newid q m s = (Rejected t, s') <->
  usc_query q s = (Rejected t, s') \/
  exists docs s1, usc_query q s = (Resolved docs, s1) /\ usc_write newid q m docs s1 = (Rejected t, s').
Proof.
  unfold updateSearchCount. rewrite try_catch_rethrow. unfold mbind, async_bind.
  destruct (usc_query q s) as [[docs|t'] s1]; split.
  - intros Hw. right. eauto.
  - intros [Hr|(docs' & s1' & [= <- <-] & Hw)]; [done|exact Hw].
  - intros [= -> ->]. by left.
  - intros [[= -> ->]|(docs' & s1' & Hr & _)]; [done|discriminate].
Qed.

End AnyStore.

(** *** Interleaved calls *)

Lemma step_call_idle c docs :
  step_call c Idle docs =
    (Queried (Resolved (filter (fun d => searchTerm d = call_query c) docs)), docs).
Proof. unfold step_call. by rewrite mem_usc_query. Qed.

Lemma step_call_write c ds docs r docs' :
  usc_write (call_newid c) (call_query c) (call_movie c) ds docs = (r, docs') ->
  step_call c (Queried (Resolved ds)) docs = (Finished r, docs').
Proof. intros H. unfold step_call. by rewrite H. Qed.

(** A call writes no search term but its own: the terms of the
    collection after it are those before it and the call's query. *)
Lemma usc_terms newid q m (docs : list document) :
  searchTerm <$> (updateSearchCount newid q m docs).2 ⊆ q :: (searchTerm <$> docs).
Proof.
  rewrite mem_updateSearchCount.
  destruct (filter _ docs) as [|d rest]; unfold usc_write, mbind, async_bind; simpl.
  - unfold mem_create. case_decide; simpl; [set_solver|]. rewrite fmap_app. set_solver.
  - unfold mem_update. destruct (list_find _ docs) as [[k d']|] eqn:E; simpl; [|set_solver].
    apply list_find_Some in E as (Hk & _ & _).
    rewrite list_fmap_insert, list_insert_id; [set_solver|].
    rewrite list_lookup_fmap, Hk. by destruct d'.
Qed.

(** A call's two segments run back to back are the whole call. *)
Lemma step_call_whole c docs :
  let p := step_call c Idle docs in
  step_call c p.1 p.2 =
    (Finished (updateSearchCount (call_newid c) (call_query c) (call_movie c) docs).1,
     (updateSearchCount (call_newid c) (call_query c) (call_movie c) docs).2).
Proof.
  rewrite step_call_idle, mem_updateSearchCount. simpl.
  by destruct (usc_write _ _ _ _ docs).
Qed.

Lemma set_count_twice c d : set_count c (set_count c d) = set_count c d.
Proof. by destruct d. Qed.

Lemma not_elem_snoc (i : jstring) (docs : list document) nd :
  i ∉ doc_id <$> docs -> i ≠ doc_id nd -> i ∉ doc_id <$> (docs ++ [nd]).
Proof. rewrite fmap_app. simpl. set_solver. Qed.

(** C19.  The race the design tolerates but does not expect: two calls for
    a term the collection does not have, whose listings both run before
    either writes, create two documents for that term, each with [count]
    1; the collection no longer has one document per term. *)
Theorem concurrent_first_search_duplicates idA idB q mA mB (docs : list document) :
  filter (fun d => searchTerm d = q) docs = [] -> idA ≠ idB ->
  idA ∉ doc_id <$> docs -> idB ∉ doc_id <$> docs ->
  run_schedule [Call idA q mA; Call idB q mB] [Idle; Idle] [0; 1; 0; 1]%nat docs =
    ([Finished (Resolved tt); Finished (Resolved tt)],
     docs ++ [new_document idA q mA; new_document idB q mB]) /\
  ~ terms_unique (docs ++ [new_document idA q mA; new_document idB q mB]).
Proof.
  intros Hq Hab HA HB. split.
  - cbn -[step_call]. rewrite step_call_idle. cbn -[step_call]. rewrite step_call_idle.
    cbn -[step_call]. rewrite Hq.
    rewrite (step_call_write (Call idA q mA) _ _ _ _ (usc_write_create idA q mA docs HA)). cbn -[step_call].
    assert (HB' : idB ∉ doc_id <$> (docs ++ [new_document idA q mA]))
      by (apply not_elem_snoc; [done|simpl; congruence]).
    rewrite (step_call_write (Call idB q mB) _ _ _ _ (usc_write_create idB q mB _ HB')).
    cbn. by rewrite <- app_assoc.
  - unfold terms_unique. rewrite fmap_app. simpl. intros Hnd.
    apply NoDup_app in Hnd as (_ & _ & Hnd). inversion Hnd. set_solver.
Qed.

(** C20.  The lost update: two calls for a term the collection has, whose
    listings both run before either writes, both write the same [count + 1]:
    the count grows by one for two searches. *)
Theorem concurrent_increment_lost idA idB q mA mB l1 d l2 :
  ids_unique (l1 ++ d :: l2) -> searchTerm d = q -> Forall (fun x => searchTerm x ≠ q) l1 ->
  run_schedule [Call idA q mA; Call idB q mB] [Idle; Idle] [0; 1; 0; 1]%nat (l1 ++ d :: l2) =
    ([Finished (Resolved tt); Finished (Resolved tt)],
     l1 ++ set_count (js_add (count d) 1) d :: l2).
Proof.
  intros Hu Hd H1. pose proof (ids_unique_middle _ _ _ Hu) as Hids.
  cbn -[step_call]. rewrite step_call_idle. cbn -[step_call]. rewrite step_call_idle.
  cbn -[step_call]. rewrite filter_first by done.
  rewrite (step_call_write (Call idA q mA) _ _ _ _
             (usc_write_update idA q mA d _ l1 d l2 Hids eq_refl)).
  cbn -[step_call].
  rewrite (step_call_write (Call idB q mB) _ _ _ _
             (usc_write_update idB q mB d _ l1 (set_count (js_add (count d) 1) d) l2 Hids eq_refl)).
  cbn. by rewrite set_count_twice.
Qed.

(** *** The type of the counts *)

Lemma js_add_one_typed c : 1 <= c <= max_safe -> 1 <= js_add c 1 <= max_safe.
Proof.
  intros Hc. destruct (Z.eq_dec c max_safe) as [->|]; [vm_compute; split; discriminate|].
  rewrite js_add_exact; lia.
Qed.

Lemma set_count_typed c d : 1 <= c <= max_safe -> count_typed (set_count c d).
Proof. by destruct d. Qed.

#[local] Hint Resolve set_count_typed js_add_one_typed Forall_insert Forall_filter_weaken : movie.

Lemma usc_write_typed newid q m ds docs :
  Forall count_typed ds -> Forall count_typed docs ->
  Forall count_typed (usc_write newid q m ds docs).2.
Proof.
  intros Hds Hdocs. destruct ds as [|d rest]; unfold usc_write, mbind, async_bind; simpl.
  - unfold mem_create. case_decide; simpl; [done|].
    apply Forall_app. split; [done|]. constructor; [unfold count_typed; simpl; cbv; split; discriminate|constructor].
  - apply Forall_cons in Hds as [Hd _]. unfold mem_update.
    destruct (list_find _ docs) as [[k d']|]; simpl; [|done].
    apply Forall_insert; [done|]. by apply set_count_typed, js_add_one_typed.
Qed.

Lemma step_call_typed c p docs :
  phase_typed p -> Forall count_typed docs ->
  phase_typed (step_call c p docs).1 /\ Forall count_typed (step_call c p docs).2.
Proof.
  intros Hp Hdocs. destruct p as [|[ds|t]|r]; [rewrite step_call_idle; simpl; auto with movie| |done|done].
  destruct (usc_write (call_newid c) (call_query c) (call_movie c) ds docs) as [r docs'] eqn:E.
  rewrite (step_call_write _ _ _ _ _ E). split; [done|].
  change docs' with (r, docs').2. rewrite <- E. by apply usc_write_typed.
Qed.

(** C36.  Whatever the calls and however their segments interleave, every
    document of the collection keeps a [count] of the design's type, an
    integer in [1, 2^53]: increments computed from stale listings can lose
    searches (C20) but never produce a count outside that range. *)
Theorem counts_stay_typed calls sched : forall phases docs,
  Forall count_typed docs -> Forall phase_typed phases ->
  Forall count_typed (run_schedule calls phases sched docs).2.
Proof.
  induction sched as [|i sched IH]; intros phases docs Hdocs Hph; [done|]. simpl.
  destruct (calls !! i) as [c|], (phases !! i) as [p|] eqn:Ep; try by apply IH.
  destruct (step_call c p docs) as [p' docs'] eqn:E.
  destruct (step_call_typed c p docs) as [H1 H2]; [by eapply Forall_lookup_1|done|].
  rewrite E in H1, H2. apply IH; [done|]. by apply Forall_insert.
Qed.

End AppwriteFacts.

(** ** Witnesses *)
Module AppwriteWitnesses.
Import Appwrite AppwriteFacts.
Local Open Scope Z_scope.

Definition batman : Movie.t := Movie.MkMovie 155 ⟪"The Batman"⟫ (Some ⟪"/abc.jpg"⟫).
Definition no_poster : Movie.t := Movie.MkMovie 7 ⟪"Untitled"⟫ None.

Definition avatar_doc : document :=
  Document ⟪"d1"⟫ ⟪"avatar"⟫ 19995 4 ⟪"Avatar"⟫ ⟪"https://image.tmdb.org/t/p/w500/a.jpg"⟫.
Definition batman_doc (c : Z) : document :=
  Document ⟪"d2"⟫ ⟪"batman"⟫ 155 c ⟪"The Batman"⟫ ⟪"https://image.tmdb.org/t/p/w500/abc.jpg"⟫.

Lemma usc_increments_first_witness :
  ids_unique ([avatar_doc] ++ batman_doc 3 :: []) /\
  updateSearchCount ⟪"x"⟫ ⟪"batman"⟫ batman ([avatar_doc] ++ batman_doc 3 :: []) =
    (Resolved tt, [avatar_doc; batman_doc 4]).
Proof.
  assert (Hu : ids_unique ([avatar_doc] ++ batman_doc 3 :: [])) by (unfold ids_unique; simpl;
    repeat constructor; set_solver).
  split; [exact Hu|].
  rewrite (usc_increments_first _ _ _ [avatar_doc] (batman_doc 3) [] Hu eq_refl)
    by (repeat constructor; discriminate).
  reflexivity.
Defined.

(** The spec's scenario: the first search for "batman" creates the record. *)
Lemma usc_creates_document_witness :
  updateSearchCount ⟪"x"⟫ ⟪"batman"⟫ batman [] =
    (Resolved tt, [Document ⟪"x"⟫ ⟪"batman"⟫ 155 1 ⟪"The Batman"⟫
                     ⟪"https://image.tmdb.org/t/p/w500/abc.jpg"⟫]) /\
  updateSearchCount ⟪"y"⟫ ⟪"untitled"⟫ no_poster [] =
    (Resolved tt, [Document ⟪"y"⟫ ⟪"untitled"⟫ 7 1 ⟪"Untitled"⟫
                     ⟪"https://image.tmdb.org/t/p/w500undefined"⟫]).
Proof.
  split; [exact (usc_creates_document ⟪"x"⟫ ⟪"batman"⟫ batman [] eq_refl (not_elem_of_nil _))|
          exact (usc_creates_document ⟪"y"⟫ ⟪"untitled"⟫ no_poster [] eq_refl (not_elem_of_nil _))].
Defined.

Lemma usc_refines_counter_witness :
  ids_unique [avatar_doc; batman_doc 3] /\ ⟪"x"⟫ ∉ doc_id <$> [avatar_doc; batman_doc 3] /\
  0 <= term_count [avatar_doc; batman_doc 3] ⟪"batman"⟫ < max_safe /\
  exists docs', updateSearchCount ⟪"x"⟫ ⟪"batman"⟫ batman [avatar_doc; batman_doc 3] =
                  (Resolved tt, docs') /\ ids_unique docs' /\
    forall q', term_count docs' q' = record_spec (term_count [avatar_doc; batman_doc 3]) ⟪"batman"⟫ q'.
Proof.
  assert (Hu : ids_unique [avatar_doc; batman_doc 3])
    by (unfold ids_unique; simpl; repeat constructor; set_solver).
  assert (Hx : ⟪"x"⟫ ∉ doc_id <$> [avatar_doc; batman_doc 3]) by (simpl; set_solver).
  assert (Hc : 0 <= term_count [avatar_doc; batman_doc 3] ⟪"batman"⟫ < max_safe)
    by (change (term_count [avatar_doc; batman_doc 3] ⟪"batman"⟫) with 3; unfold max_safe; lia).
  exact (conj Hu (conj Hx (conj Hc (usc_refines_counter _ _ _ _ Hu Hx Hc)))).
Defined.

Lemma usc_preserves_unique_terms_witness :
  terms_unique [avatar_doc] /\ ids_unique [avatar_doc] /\ ⟪"x"⟫ ∉ doc_id <$> [avatar_doc] /\
  exists docs', updateSearchCount ⟪"x"⟫ ⟪"batman"⟫ batman [avatar_doc] = (Resolved tt, docs') /\
    terms_unique docs' /\ ids_unique docs'.
Proof.
  assert (Ht : terms_unique [avatar_doc]) by (repeat constructor; set_solver).
  assert (Hu : ids_unique [avatar_doc]) by (repeat constructor; set_solver).
  assert (Hx : ⟪"x"⟫ ∉ doc_id <$> [avatar_doc]) by (simpl; set_solver).
  split_and!; [exact Ht|exact Hu|exact Hx|exact (usc_preserves_unique_terms _ _ _ _ Ht Hu Hx)].
Defined.

Lemma usc_count_saturates_witness :
  ids_unique ([] ++ batman_doc max_safe :: []) /\ count (batman_doc max_safe) = max_safe /\
  updateSearchCount ⟪"x"⟫ ⟪"batman"⟫ batman ([] ++ batman_doc max_safe :: []) =
    (Resolved tt, [batman_doc max_safe]).
Proof.
  assert (Hu : ids_unique ([] ++ batman_doc max_safe :: [])) by (repeat constructor; set_solver).
  split_and!; [exact Hu|reflexivity|].
  exact (usc_count_saturates _ _ _ [] (batman_doc max_safe) [] Hu eq_refl (Forall_nil_2 _) eq_refl).
Defined.

Lemma concurrent_first_search_duplicates_witness :
  ⟪"a"⟫ ≠ ⟪"b"⟫ /\
  run_schedule [Call ⟪"a"⟫ ⟪"batman"⟫ batman; Call ⟪"b"⟫ ⟪"batman"⟫ batman] [Idle; Idle]
    [0; 1; 0; 1]%nat [] =
    ([Finished (Resolved tt); Finished (Resolved tt)],
     [] ++ [new_document ⟪"a"⟫ ⟪"batman"⟫ batman; new_document ⟪"b"⟫ ⟪"batman"⟫ batman]).
Proof.
  assert (Hab : ⟪"a"⟫ ≠ ⟪"b"⟫) by discriminate.
  split; [exact Hab|].
  exact (proj1 (concurrent_first_search_duplicates _ _ _ batman batman [] eq_refl Hab
                  (not_elem_of_nil _) (not_elem_of_nil _))).
Defined.

Lemma concurrent_increment_lost_witness :
  ids_unique ([avatar_doc] ++ batman_doc 3 :: []) /\
  run_schedule [Call ⟪"a"⟫ ⟪"batman"⟫ batman; Call ⟪"b"⟫ ⟪"batman"⟫ batman] [Idle; Idle]
    [0; 1; 0; 1]%nat ([avatar_doc] ++ batman_doc 3 :: []) =
    ([Finished (Resolved tt); Finished (Resolved tt)], [avatar_doc; batman_doc 4]).
Proof.
  assert (Hu : ids_unique ([avatar_doc] ++ batman_doc 3 :: [])) by (unfold ids_unique; simpl;
    repeat constructor; set_solver).
  split; [exact Hu|].
  rewrite (concurrent_increment_lost _ _ _ _ _ [avatar_doc] (batman_doc 3) [] Hu eq_refl)
    by (repeat constructor; discriminate).
  reflexivity.
Defined.

(** Three calls interleaved, one on a saturated count and two racing on a
    new term: the counts stay typed. *)
Lemma counts_stay_typed_witness :
  Forall count_typed [avatar_doc; batman_doc max_safe] /\
  Forall phase_typed [Idle; Idle; Idle] /\
  Forall count_typed
    (run_schedule [Call ⟪"a"⟫ ⟪"batman"⟫ batman; Call ⟪"b"⟫ ⟪"dune"⟫ no_poster;
                   Call ⟪"c"⟫ ⟪"dune"⟫ no_poster] [Idle; Idle; Idle]
       [0; 1; 2; 2; 1; 0]%nat [avatar_doc; batman_doc max_safe]).2.
Proof.
  assert (H1 : Forall count_typed [avatar_doc; batman_doc max_safe])
    by (repeat constructor; unfold count_typed, max_safe; simpl; lia).
  assert (H2 : Forall phase_typed [Idle; Idle; Idle]) by repeat constructor.
  split_and!; [exact H1|exact H2|exact (counts_stay_typed _ _ _ _ H1 H2)].
Defined.

End AppwriteWitnesses.
