(* ===== verification/Api.v ===== *)
(** * The movie API client: [src/services/api.ts]

    [fetchMovies({query})] builds the TMDB endpoint (a search when [query]
    is a non-empty string, the popularity listing otherwise), calls [fetch]
    with the configured headers, throws
    [Error(`Failed to fetch movies | Status: ${response.status}`)] when the
    response is not [ok], and returns [data.results] of its JSON body.

    [fetch] and the environment variable [EXPO_PUBLIC_MOVIE_API_KEY] are
    parameters of the section.  [encodeURIComponent] is the ECMAScript
    function on UTF-16 code units: unreserved ASCII characters are kept,
    every other code point (a surrogate pair is one code point) becomes the
    percent-escaped bytes of its UTF-8 encoding, and a lone surrogate throws
    a [URIError], which rejects the [async] function's promise.
    [decodeURIComponent], ECMAScript's [Decode] with an empty reserved set,
    is the reference the encoding is proved against (a round trip). *)

From stdpp Require Import base list.
From Stdlib Require Import ZArith Lia.
From S2P Require Import Prelude Appwrite.

Module Api.
Local Open Scope Z_scope.

(** ** [encodeURIComponent] *)

(** The characters it leaves as they are: [A-Z a-z 0-9 - _ . ! ~ * ' ( )]. *)
Definition is_unreserved (c : Z) : bool :=
  ((65 <=? c) && (c <=? 90)) || ((97 <=? c) && (c <=? 122)) || ((48 <=? c) && (c <=? 57))
  || (c =? 45) || (c =? 95) || (c =? 46) || (c =? 33) || (c =? 126) || (c =? 42)
  || (c =? 39) || (c =? 40) || (c =? 41).

Definition is_high_surrogate (c : Z) : bool := (55296 <=? c) && (c <=? 56319).
Definition is_low_surrogate (c : Z) : bool := (56320 <=? c) && (c <=? 57343).

(** The code point of a surrogate pair. *)
Definition surrogate_pair (hi lo : Z) : Z := (hi - 55296) * 1024 + (lo - 56320) + 65536.

(** The UTF-8 encoding of a code point. *)
Definition utf8_bytes (cp : Z) : list Z :=
  if cp <? 128 then [cp]
  else if cp <? 2048 then [192 + cp / 64; 128 + cp mod 64]
  else if cp <? 65536 then [224 + cp / 4096; 128 + (cp / 64) mod 64; 128 + cp mod 64]
  else [240 + cp / 262144; 128 + (cp / 4096) mod 64; 128 + (cp / 64) mod 64; 128 + cp mod 64].

(** An upper-case hexadecimal digit. *)
Definition hex_digit (n : Z) : Z := if n <? 10 then 48 + n else 55 + n.

(** ["%XY"] for a byte. *)
Definition percent_byte (b : Z) : jstring := [37; hex_digit (b / 16); hex_digit (b mod 16)].

Definition utf8_percent (cp : Z) : jstring := concat (map percent_byte (utf8_bytes cp)).

(** [None] is the [URIError] thrown on a lone surrogate. *)
Fixpoint encodeURIComponent (s : jstring) : option jstring :=
  match s with
  | [] => Some []
  | c :: s' =>
      if is_unreserved c then cons c <$> encodeURIComponent s'
      else if is_low_surrogate c then None
      else if is_high_surrogate c then
        match s' with
        | c2 :: s'' =>
            if is_low_surrogate c2
            then app (utf8_percent (surrogate_pair c c2)) <$> encodeURIComponent s''
            else None
        | [] => None
        end
      else app (utf8_percent c) <$> encodeURIComponent s'
  end.

(** ** [decodeURIComponent], the inverse the encoding is meant for

    ECMAScript's [Decode] with an empty reserved set: a [%XY] escape starts
    the UTF-8 encoding of one code point, whose continuation bytes are
    escapes too; an overlong form, a surrogate or a code point above
    U+10FFFF is a [URIError] ([None]).  Every step consumes at least one
    code unit: the fuel is the length of the input. *)
Definition hex_value (c : Z) : option Z :=
  if (48 <=? c) && (c <=? 57) then Some (c - 48)
  else if (65 <=? c) && (c <=? 70) then Some (c - 55)
  else if (97 <=? c) && (c <=? 102) then Some (c - 87)
  else None.

(** The byte of a ["%XY"] at the head of the string. *)
Definition read_byte (s : jstring) : option (Z * jstring) :=
  match s with
  | c :: h :: l :: s' =>
      if c =? 37 then h' ← hex_value h; l' ← hex_value l; Some (h' * 16 + l', s')
      else None
  | _ => None
  end.

(** [n] continuation bytes [10xxxxxx], accumulated into [acc]. *)
Fixpoint read_cont (n : nat) (acc : Z) (s : jstring) : option (Z * jstring) :=
  match n with
  | O => Some (acc, s)
  | S n' =>
      '(b, s') ← read_byte s;
      if (128 <=? b) && (b <? 192) then read_cont n' (acc * 64 + (b - 128)) s' else None
  end.

(** A leading byte: the number of continuation bytes, its payload bits and
    the least code point of that length. *)
Definition utf8_lead (b : Z) : option (nat * Z * Z) :=
  if b <? 128 then Some (0%nat, b, 0)
  else if b <? 192 then None
  else if b <? 224 then Some (1%nat, b - 192, 128)
  else if b <? 240 then Some (2%nat, b - 224, 2048)
  else if b <? 248 then Some (3%nat, b - 240, 65536)
  else None.

(** The UTF-16 code units of a code point. *)
Definition utf16_units (cp : Z) : jstring :=
  if cp <? 65536 then [cp]
  else [55296 + (cp - 65536) / 1024; 56320 + (cp - 65536) mod 1024].

Definition decode_escape (s : jstring) : option (jstring * jstring) :=
  '(b, s1) ← read_byte s;
  '(n, bits, least) ← utf8_lead b;
  '(cp, s2) ← read_cont n bits s1;
  if (least <=? cp) && (cp <? 1114112) && negb ((55296 <=? cp) && (cp <=? 57343))
  then Some (utf16_units cp, s2) else None.

Fixpoint decode_aux (fuel : nat) (s : jstring) : option jstring :=
  match fuel with
  | O => None
  | S f =>
      match s with
      | [] => Some []
      | c :: s' =>
          if c =? 37 then '(u, rest) ← decode_escape s; app u <$> decode_aux f rest
          else cons c <$> decode_aux f s'
      end
  end.

Definition decodeURIComponent (s : jstring) : option jstring := decode_aux (S (length s)) s.

(** A character that cannot end the URL's query value: an unreserved one or
    the [%] of an escape. *)
Definition url_safe (c : Z) : Prop := is_unreserved c = true \/ c = 37.

(** A JavaScript string: its elements are UTF-16 code units. *)
Definition code_units (s : jstring) : Prop := Forall (fun c => 0 <= c < 65536) s.

Definition uri_error : thrown := ThrownError (JsError ⟪"URI malformed"⟫).

(** ** Numbers in template literals *)

Fixpoint dec_digits (fuel : nat) (n : Z) (acc : jstring) : jstring :=
  match fuel with
  | O => acc
  | S f =>
      let acc' := (48 + n mod 10) :: acc in
      if n <? 10 then acc' else dec_digits f (n / 10) acc'
  end.

(** [${n}] for an integer [n] (up to 64 digits). *)
Definition Z_to_dec (n : Z) : jstring :=
  if n <? 0 then 45 :: dec_digits 64 (- n) [] else dec_digits 64 n [].

(** ** [TMDB_CONFIG] and [fetchMovies] *)

Record tmdb_config := TmdbConfig {
  BASE_URL : jstring;
  API_KEY : option jstring;
  headers : list (jstring * jstring);
}.

(** The JSON body of a TMDB page. *)
Record tmdb_page := TmdbPage { results : list Movie.t }.

(** A [Response]: its status and the outcome of [response.json()]. *)
Record response := Response { status : Z; json_body : settled tmdb_page }.

(** [response.ok]: the status is in the range 200-299. *)
Definition ok (r : response) : bool := (200 <=? status r) && (status r <=? 299).

Section FetchMovies.
(** [process.env.EXPO_PUBLIC_MOVIE_API_KEY] *)
Variable movie_api_key : option jstring.
(** The network: [fetch(endpoint, {method: 'GET', headers})]. *)
Variable fetch : jstring -> list (jstring * jstring) -> settled response.

Definition TMDB_CONFIG : tmdb_config := {|
  BASE_URL := ⟪"https://api.themoviedb.org/3"⟫;
  API_KEY := movie_api_key;
  headers := [(⟪"accept"⟫, ⟪"application/json"⟫);
              (⟪"Authorization"⟫, ⟪"Bearer "⟫ ++ template_opt movie_api_key)];
|}.

(** The endpoint; [None] when [encodeURIComponent] throws. *)
Definition endpoint (query : jstring) : option jstring :=
  match query with
  | [] => Some (BASE_URL TMDB_CONFIG ++ ⟪"/discover/movie?sort_by=popularity.desc"⟫)
  | _ :: _ =>
      (fun q => BASE_URL TMDB_CONFIG ++ ⟪"/search/movie?query="⟫ ++ q) <$> encodeURIComponent query
  end.

Definition fetch_error (st : Z) : thrown :=
  ThrownError (JsError (⟪"Failed to fetch movies | Status: "⟫ ++ Z_to_dec st)).

Definition fetchMovies (query : jstring) : settled (list Movie.t) :=
  match endpoint query with
  | None => Rejected uri_error
  | Some url =>
      match fetch url (headers TMDB_CONFIG) with
      | Rejected t => Rejected t
      | Resolved resp =>
          if negb (ok resp) then Rejected (fetch_error (status resp))
          else match json_body resp with
               | Rejected t => Rejected t
               | Resolved data => Resolved (results data)
               end
      end
  end.

End FetchMovies.

End Api.

(** ** Theorems *)
Module ApiFacts.
Import Api.
Local Open Scope Z_scope.

Lemma hex_digit_unreserved n : 0 <= n < 16 -> is_unreserved (hex_digit n) = true.
Proof.
  intros Hn. unfold hex_digit, is_unreserved. destruct (Z.ltb_spec n 10) as [Hd|Hl].
  - replace ((48 <=? 48 + n) && (48 + n <=? 57)) with true
      by (symmetry; apply andb_true_intro; split; apply Z.leb_le; lia).
    by rewrite ?orb_true_r, ?orb_true_l.
  - replace ((65 <=? 55 + n) && (55 + n <=? 90)) with true
      by (symmetry; apply andb_true_intro; split; apply Z.leb_le; lia).
    by rewrite ?orb_true_l.
Qed.

Lemma percent_byte_safe b : 0 <= b < 256 -> Forall url_safe (percent_byte b).
Proof.
  intros Hb. unfold percent_byte, url_safe.
  constructor; [by right|]. constructor; [left|constructor; [left|constructor]];
    apply hex_digit_unreserved;
    [split; [apply Z.div_pos|apply Z.div_lt_upper_bound]; lia|apply Z.mod_pos_bound; lia].
Qed.

Lemma utf8_bytes_range cp : 0 <= cp < 1114112 -> Forall (fun b => 0 <= b < 256) (utf8_bytes cp).
Proof.
  intros Hcp. unfold utf8_bytes.
  destruct (Z.ltb_spec cp 128); [repeat (constructor; [cbv beta; zdivmod_facts; lia|]); constructor|].
  destruct (Z.ltb_spec cp 2048); [repeat (constructor; [cbv beta; zdivmod_facts; lia|]); constructor|].
  destruct (Z.ltb_spec cp 65536); repeat (constructor; [cbv beta; zdivmod_facts; lia|]); constructor.
Qed.

Lemma utf8_percent_safe cp : 0 <= cp < 1114112 -> Forall url_safe (utf8_percent cp).
Proof.
  intros Hcp. unfold utf8_percent. apply Forall_concat, Forall_map.
  eapply Forall_impl; [by apply utf8_bytes_range|]. apply percent_byte_safe.
Qed.

Lemma surrogate_pair_range hi lo :
  is_high_surrogate hi = true -> is_low_surrogate lo = true ->
  65536 <= surrogate_pair hi lo < 1114112.
Proof.
  unfold is_high_surrogate, is_low_surrogate, surrogate_pair.
  intros [H1 H2]%andb_prop [H3 H4]%andb_prop.
  apply Z.leb_le in H1, H2, H3, H4. lia.
Qed.

(** The cases of [encodeURIComponent] that succeed, as an induction
    principle on its graph. *)
Lemma encode_ind (P : jstring -> jstring -> Prop) :
  P [] [] ->
  (forall c s e, is_unreserved c = true -> encodeURIComponent s = Some e -> P s e ->
     P (c :: s) (c :: e)) ->
  (forall c c2 s e, is_unreserved c = false -> is_low_surrogate c = false ->
     is_high_surrogate c = true -> is_low_surrogate c2 = true ->
     encodeURIComponent s = Some e -> P s e ->
     P (c :: c2 :: s) (utf8_percent (surrogate_pair c c2) ++ e)) ->
  (forall c s e, is_unreserved c = false -> is_low_surrogate c = false ->
     is_high_surrogate c = false -> encodeURIComponent s = Some e -> P s e ->
     P (c :: s) (utf8_percent c ++ e)) ->
  forall s e, encodeURIComponent s = Some e -> P s e.
Proof.
  intros Hnil Hu Hp Ho s.
  induction s as [s IH] using (well_founded_induction (Wf_nat.well_founded_ltof _ (@length Z))).
  unfold Wf_nat.ltof in IH. intros e He.
  destruct s as [|c s']; [by injection He as <-|]. simpl in He.
  destruct (is_unreserved c) eqn:Eu.
  { destruct (encodeURIComponent s') eqn:E; [|done]. injection He as <-.
    apply Hu; [done|done|apply IH; [simpl; lia|done]]. }
  destruct (is_low_surrogate c) eqn:El; [done|].
  destruct (is_high_surrogate c) eqn:Eh.
  - destruct s' as [|c2 s'']; [done|]. destruct (is_low_surrogate c2) eqn:El2; [|done].
    destruct (encodeURIComponent s'') as [e'|] eqn:E; [|done]. injection He as <-.
    apply Hp; try done. apply IH; [simpl; lia|done].
  - destruct (encodeURIComponent s') eqn:E; [|done]. injection He as <-.
    apply Ho; try done. apply IH; [simpl; lia|done].
Qed.

Lemma encode_safe s e : code_units s -> encodeURIComponent s = Some e -> Forall url_safe e.
Proof.
  intros Hs He. revert Hs. pattern s, e. revert s e He. apply encode_ind.
  - constructor.
  - intros c s e Hu _ IH [? ?]%Forall_cons. constructor; [by left|auto].
  - intros c c2 s e _ _ Hh Hl _ IH [? [? ?]%Forall_cons]%Forall_cons.
    pose proof (surrogate_pair_range _ _ Hh Hl).
    apply Forall_app. split; [apply utf8_percent_safe; lia|auto].
  - intros c s e _ _ _ _ IH [? ?]%Forall_cons.
    apply Forall_app. split; [apply utf8_percent_safe; lia|auto].
Qed.

(** ** The round trip with [decodeURIComponent] *)

Lemma hex_value_digit n : 0 <= n < 16 -> hex_value (hex_digit n) = Some n.
Proof. intros Hn. unfold hex_value, hex_digit. zcompare_cases; simpl; try lia; f_equal; lia. Qed.

Lemma read_byte_percent b s : 0 <= b < 256 -> read_byte (percent_byte b ++ s) = Some (b, s).
Proof.
  intros Hb. unfold percent_byte. simpl.
  rewrite !hex_value_digit by (zdivmod_facts; lia). simpl. do 2 f_equal. zdivmod_facts; lia.
Qed.

Lemma read_cont_byte n acc x s :
  0 <= x < 64 -> read_cont (S n) acc (percent_byte (128 + x) ++ s) = read_cont n (acc * 64 + x) s.
Proof.
  intros Hx. cbn [read_cont]. rewrite read_byte_percent by lia. cbn [mbind option_bind].
  zcompare_cases; try lia. simpl. do 2 f_equal. lia.
Qed.

(** The escapes of a code point decode to its UTF-16 code units. *)
Lemma decode_escape_utf8 cp s :
  0 <= cp < 1114112 -> ~ (55296 <= cp <= 57343) ->
  decode_escape (utf8_percent cp ++ s) = Some (utf16_units cp, s).
Proof.
  intros Hcp Hs. unfold utf8_percent, utf8_bytes.
  destruct (Z.ltb_spec cp 128); [|destruct (Z.ltb_spec cp 2048); [|destruct (Z.ltb_spec cp 65536)]];
  cbn [map concat]; rewrite ?app_nil_r, <- ?app_assoc; unfold decode_escape;
  rewrite read_byte_percent by (zdivmod_facts; lia); cbn [mbind option_bind].
  all: unfold utf8_lead; zcompare_cases; try (zdivmod_facts; lia); cbn [mbind option_bind];
    rewrite ?read_cont_byte by (zdivmod_facts; lia); cbn [read_cont mbind option_bind];
    zcompare_cases; try (zdivmod_facts; lia); cbn.
  all: repeat f_equal; zdivmod_facts; lia.
Qed.

Lemma utf8_percent_head cp : exists t, utf8_percent cp = 37 :: t.
Proof.
  unfold utf8_percent, utf8_bytes.
  destruct (cp <? 128); [|destruct (cp <? 2048); [|destruct (cp <? 65536)]]; by eexists.
Qed.

(** One escaped code point, then the rest. *)
Lemma decode_aux_escape cp e s f :
  0 <= cp < 1114112 -> ~ (55296 <= cp <= 57343) ->
  decode_aux f e = Some s ->
  decode_aux (S f) (utf8_percent cp ++ e) = Some (utf16_units cp ++ s).
Proof.
  intros Hcp Hsur Hd. destruct (utf8_percent_head cp) as [t Ht].
  rewrite Ht. cbn [decode_aux app]. rewrite Z.eqb_refl.
  change (37 :: t ++ e) with ((37 :: t) ++ e). rewrite <- Ht, decode_escape_utf8 by done.
  cbn [mbind option_bind]. by rewrite Hd.
Qed.

Lemma utf16_units_pair hi lo :
  is_high_surrogate hi = true -> is_low_surrogate lo = true ->
  utf16_units (surrogate_pair hi lo) = [hi; lo].
Proof.
  unfold is_high_surrogate, is_low_surrogate, utf16_units, surrogate_pair.
  intros [H1 H2]%andb_prop [H3 H4]%andb_prop. apply Z.leb_le in H1, H2, H3, H4.
  zcompare_cases; [lia|]. repeat f_equal; zdivmod_facts; lia.
Qed.

Lemma decode_encode_fuel : forall s e,
  encodeURIComponent s = Some e -> code_units s ->
  forall f, (length e < f)%nat -> decode_aux f e = Some s.
Proof.
  apply (encode_ind (fun s e => code_units s ->
                        forall f, (length e < f)%nat -> decode_aux f e = Some s)).
  - intros _ [|f] ?; [lia|done].
  - intros c s e Hu _ IH [_ Hs]%Forall_cons [|f] Hf; [lia|]. simpl in Hf |- *.
    destruct (Z.eqb_spec c 37) as [->|]; [done|]. rewrite (IH Hs f) by lia. done.
  - intros c c2 s e _ _ Hh Hl _ IH [_ [_ Hs]%Forall_cons]%Forall_cons [|f] Hf; [lia|].
    pose proof (surrogate_pair_range _ _ Hh Hl).
    rewrite length_app in Hf. destruct (utf8_percent_head (surrogate_pair c c2)) as [t Ht].
    rewrite (decode_aux_escape _ _ s f).
    + by rewrite utf16_units_pair.
    + lia.
    + lia.
    + apply IH; [done|]. rewrite Ht in Hf. simpl in Hf. lia.
  - intros c s e Hu Hl Hh _ IH [Hc Hs]%Forall_cons [|f] Hf; [lia|].
    unfold is_low_surrogate, is_high_surrogate in Hl, Hh.
    rewrite length_app in Hf. destruct (utf8_percent_head c) as [t Ht].
    rewrite (decode_aux_escape _ _ s f).
    + unfold utf16_units. by destruct (Z.ltb_spec c 65536); [|lia].
    + lia.
    + intros ?. destruct (Z.leb_spec 55296 c), (Z.leb_spec c 56319), (Z.leb_spec 56320 c),
        (Z.leb_spec c 57343); simpl in *; lia || discriminate.
    + apply IH; [done|]. rewrite Ht in Hf. simpl in Hf. lia.
Qed.

Section WithFetch.
Variable movie_api_key : option jstring.
Variable fetch : jstring -> list (jstring * jstring) -> settled response.

(** C22.  When the server answers with a status outside 200-299,
    [fetchMovies] rejects with the error whose message is
    ["Failed to fetch movies | Status: "] followed by the status in
    decimal. *)
Theorem fetchMovies_status_error query url resp :
  endpoint movie_api_key query = Some url ->
  fetch url (headers (TMDB_CONFIG movie_api_key)) = Resolved resp ->
  ~ (200 <= status resp <= 299) ->
  fetchMovies movie_api_key fetch query =
    Rejected (ThrownError (JsError (⟪"Failed to fetch movies | Status: "⟫ ++ Z_to_dec (status resp)))).
Proof.
  intros He Hf Hst. unfold fetchMovies. rewrite He, Hf.
  unfold ok. destruct (Z.leb_spec 200 (status resp)), (Z.leb_spec (status resp) 299);
    simpl; try reflexivity; lia.
Qed.

(** C23.  When the server answers with a 2xx status and a JSON body,
    [fetchMovies] resolves with the body's [results]; a body that does not
    parse rejects with the parser's error. *)
Theorem fetchMovies_success query url resp :
  endpoint movie_api_key query = Some url ->
  fetch url (headers (TMDB_CONFIG movie_api_key)) = Resolved resp ->
  200 <= status resp <= 299 ->
  fetchMovies movie_api_key fetch query =
    match json_body resp with
    | Resolved data => Resolved (results data)
    | Rejected t => Rejected t
    end.
Proof.
  intros He Hf Hst. unfold fetchMovies. rewrite He, Hf. unfold ok.
  destruct (Z.leb_spec 200 (status resp)), (Z.leb_spec (status resp) 299); try lia.
  simpl. by destruct (json_body resp).
Qed.

(** C24.  The endpoint: the empty query lists by popularity; any other
    query that is a JavaScript string searches with the query as the one
    and only URL parameter (its encoding holds no [&] or [#]); a query with
    a lone surrogate makes [fetchMovies] reject with a [URIError], without
    a request. *)
Theorem endpoint_cases query :
  (query = [] ->
   endpoint movie_api_key query =
     Some (⟪"https://api.themoviedb.org/3/discover/movie?sort_by=popularity.desc"⟫)) /\
  (query <> [] -> code_units query ->
   match encodeURIComponent query with
   | Some e => endpoint movie_api_key query =
                 Some (⟪"https://api.themoviedb.org/3/search/movie?query="⟫ ++ e) /\
               38 ∉ e /\ 35 ∉ e
   | None => fetchMovies movie_api_key fetch query = Rejected uri_error
   end).
Proof.
  split; [by intros ->|]. intros Hne Hs.
  destruct (encodeURIComponent query) as [e|] eqn:He.
  - pose proof (encode_safe _ _ Hs He) as Hsafe.
    destruct query as [|c q]; [done|]. split; [by unfold endpoint; rewrite He|].
    split; intros Hin; eapply Forall_forall in Hsafe; [|exact Hin|..|exact Hin];
      destruct Hsafe as [Hsafe|Hsafe]; try discriminate; vm_compute in Hsafe; discriminate.
  - destruct query as [|c q]; [done|]. unfold fetchMovies, endpoint. by rewrite He.
Qed.

(** C21.  The query reaches TMDB intact: for every non-empty query that
    is a JavaScript string and for which [endpoint] builds a URL, the URL
    is the search endpoint followed by a parameter made of unreserved
    characters and percent escapes only (no [&], [#] or space can end the
    parameter early), and decoding that parameter as the server does
    ([decodeURIComponent]) gives back exactly the query the user typed. *)
Theorem search_url_roundtrip query url :
  query <> [] -> code_units query -> endpoint movie_api_key query = Some url ->
  exists p, url = ⟪"https://api.themoviedb.org/3/search/movie?query="⟫ ++ p /\
            Forall url_safe p /\ decodeURIComponent p = Some query.
Proof.
  intros Hne Hs. destruct query as [|c q]; [done|]. unfold endpoint.
  destruct (encodeURIComponent (c :: q)) as [e|] eqn:He; [|done]. intros [= <-].
  exists e. split_and!; [done|by apply (encode_safe (c :: q))|].
  apply (decode_encode_fuel _ _ He Hs). lia.
Qed.

End WithFetch.

End ApiFacts.

(** ** Witnesses *)
Module ApiWitnesses.
Import Api ApiFacts.
Local Open Scope Z_scope.

Definition batman_robin : jstring := ⟪"batman & robin"⟫.
Definition batman_movie : Movie.t := Movie.MkMovie 155 ⟪"The Batman"⟫ (Some ⟪"/abc.jpg"⟫).

(** A server that answers 404 to every request. *)
Definition not_found_server : jstring -> list (jstring * jstring) -> settled response :=
  fun _ _ => Resolved (Response 404 (Rejected (ThrownOther []))).

(** A server that answers every request with one page holding The Batman. *)
Definition batman_server : jstring -> list (jstring * jstring) -> settled response :=
  fun _ _ => Resolved (Response 200 (Resolved (TmdbPage [batman_movie]))).

Definition batman_url : jstring := ⟪"https://api.themoviedb.org/3/search/movie?query=batman"⟫.

Lemma fetchMovies_status_error_witness :
  endpoint None ⟪"batman"⟫ = Some batman_url /\
  fetchMovies None not_found_server ⟪"batman"⟫ =
    Rejected (ThrownError (JsError ⟪"Failed to fetch movies | Status: 404"⟫)).
Proof.
  assert (He : endpoint None ⟪"batman"⟫ = Some batman_url) by reflexivity.
  split; [exact He|].
  exact (fetchMovies_status_error None not_found_server _ _ _ He eq_refl ltac:(simpl; lia)).
Defined.

Lemma fetchMovies_success_witness :
  endpoint None ⟪"batman"⟫ = Some batman_url /\
  fetchMovies None batman_server ⟪"batman"⟫ = Resolved [batman_movie].
Proof.
  assert (He : endpoint None ⟪"batman"⟫ = Some batman_url) by reflexivity.
  split; [exact He|].
  exact (fetchMovies_success None batman_server _ _ _ He eq_refl ltac:(simpl; lia)).
Defined.

Lemma endpoint_cases_witness :
  code_units batman_robin /\
  endpoint None batman_robin =
    Some (⟪"https://api.themoviedb.org/3/search/movie?query="⟫ ++ ⟪"batman%20%26%20robin"⟫) /\
  fetchMovies None batman_server [56832] = Rejected uri_error.
Proof.
  assert (Hs : code_units batman_robin) by (unfold code_units; apply (bool_decide_unpack _); vm_compute; exact I).
  assert (Hs' : code_units [56832]) by (unfold code_units; apply (bool_decide_unpack _); vm_compute; exact I).
  split_and!; [exact Hs|
    exact (proj1 (proj2 (endpoint_cases None batman_server batman_robin) ltac:(discriminate) Hs))|
    exact (proj2 (endpoint_cases None batman_server [56832]) ltac:(discriminate) Hs')].
Defined.

(** "b é😀": an ASCII letter, a space, a two-byte and a four-byte code
    point (a surrogate pair in UTF-16). *)
Definition mixed : jstring := [98; 32; 233; 55357; 56832].

Lemma search_url_roundtrip_witness :
  mixed <> [] /\ code_units mixed /\
  endpoint None mixed = Some (⟪"https://api.themoviedb.org/3/search/movie?query="⟫ ++ ⟪"b%20%C3%A9%F0%9F%98%80"⟫) /\
  decodeURIComponent ⟪"b%20%C3%A9%F0%9F%98%80"⟫ = Some mixed.
Proof.
  assert (Hs : code_units mixed) by (unfold code_units; apply (bool_decide_unpack _); vm_compute; exact I).
  assert (He : endpoint None mixed =
                 Some (⟪"https://api.themoviedb.org/3/search/movie?query="⟫ ++ ⟪"b%20%C3%A9%F0%9F%98%80"⟫))
    by reflexivity.
  split_and!; [discriminate|exact Hs|exact He|].
  destruct (search_url_roundtrip None mixed _ ltac:(discriminate) Hs He) as (p & Hp & _ & Hd).
  apply app_inv_head in Hp. rewrite Hp. exact Hd.
Defined.

End ApiWitnesses.
