(* ===== verification/SearchScreen.v ===== *)
(** * The search screen: [src/app/(tabs)/search.tsx]

    The composition of the three components: the debounce timer of
    [Debounce] decides when to call [loadMovies] (the [refetch] of a
    [useFetch] hook over [fetchMovies]) or [reset]; after [await
    loadMovies()], the timer's callback tests [movies?.lenght > 0] before
    calling [updateSearchCount]; and a second effect, run whenever [movies]
    changes, calls [updateSearchCount(searchQuery, movies[0])] when the
    trimmed query is not empty and the list is not.

    [screen] holds the timer state, the hook's configuration, the [movies]
    of the render that set the pending timeout (the value the callback's
    closure reads), the context of each [loadMovies] call in flight, and the
    log of [updateSearchCount] invocations (their effect on the collection
    is [Appwrite]'s).  Events are clock ticks, inputs and settlements of
    [fetchMovies] promises (their outcome is the environment's).  A new
    array from [setData(result)] always changes [movies] (a new JSON value);
    [setData(null)] changes it only when it was not already [null].
    [search_view_of] is what the JSX renders from that state. *)

From stdpp Require Import base list sets.
From Stdlib Require Import ZArith Lia.
From S2P Require Import Prelude FetchState Debounce Appwrite.

Module SearchScreen.
Import UseFetch Debounce.
Local Open Scope Z_scope.

Record screen := Screen {
  deb : dstate;
  hook : config (list Movie.t);
  snapshot : option (list Movie.t);
  callbacks : list (nat * (jstring * option (list Movie.t)));
  recorded : list (jstring * Movie.t);
}.

Inductive sevent :=
| STick (t : Z)
| SInput (t : Z) (i : input)
| SSettle (call : nat) (o : settled (list Movie.t)).

(** [const search = () => ...] on its first render, [useFetch(..., false)]. *)
Definition mount_screen (t0 : Z) : screen :=
  Screen (mount_debounce t0) (mount false) None [] [].

(** A property read on an array: only [length] is defined. *)
Definition array_prop {A} (name : jstring) (a : list A) : option Z :=
  if decide (name = ⟪"length"⟫) then Some (Z.of_nat (length a)) else None.

(** [v > 0] where [undefined > 0] is [false]. *)
Definition js_gt0 (v : option Z) : bool :=
  match v with Some n => 0 <? n | None => false end.

(** [movies?.lenght > 0 && movies?.[0]] *)
Definition timeout_record_guard (movies : option (list Movie.t)) : bool :=
  js_gt0 (movies ≫= array_prop ⟪"lenght"⟫) && bool_decide (is_Some (movies ≫= head)).

(** An event of the hook; a settlement of an unknown call changes nothing. *)
Definition hook_step (c : config (list Movie.t)) (e : event (list Movie.t)) : config (list Movie.t) :=
  default c (step_event c e).

Definition set_hook (h : config (list Movie.t)) (s : screen) : screen :=
  Screen (deb s) h (snapshot s) (callbacks s) (recorded s).

Definition log_record (q : jstring) (m : Movie.t) (s : screen) : screen :=
  Screen (deb s) (hook s) (snapshot s) (callbacks s) (recorded s ++ [(q, m)]).

(** [useEffect(() => { if (searchQuery.trim() && movies && movies.length > 0)
    updateSearchCount(searchQuery, movies[0]); }, [movies])], run after a
    render where [movies] [changed]. *)
Definition effect_movies (changed : bool) (s : screen) : screen :=
  if changed then
    match data (st (hook s)) with
    | Some (m :: _) =>
        match trim (searchQuery (deb s)) with
        | [] => s
        | _ :: _ => log_record (searchQuery (deb s)) m s
        end
    | _ => s
    end
  else s.

(** The timer's callback up to its [await], then the render's effects. *)
Definition fire (a : action) (s : screen) : screen :=
  match a with
  | ActLoad q =>
      Screen (deb s) (hook_step (hook s) EvRefetch) (snapshot s)
        ((next_call (hook s), (q, snapshot s)) :: callbacks s) (recorded s)
  | ActReset =>
      let changed := bool_decide (is_Some (data (st (hook s)))) in
      effect_movies changed (set_hook (hook_step (hook s) EvReset) s)
  end.

(** The rest of the callback after [await loadMovies()]. *)
Definition resume (k : nat) (s : screen) : screen :=
  match list_find (fun p => p.1 = k) (callbacks s) with
  | Some (_, (_, (q, snap))) =>
      match snap with
      | Some (m :: _) => if timeout_record_guard snap then log_record q m s else s
      | _ => s
      end
  | None => s
  end.

(** Timers due by [t] fire first. *)
Definition tick (t : Z) (s : screen) : screen :=
  let (d, fired) := advance t (deb s) in
  foldl (fun s' a => fire a.2 s') (Screen d (hook s) (snapshot s) (callbacks s) (recorded s)) fired.

(** An input: a new [searchQuery] re-runs the first effect, whose new
    closure reads the current [movies]. *)
Definition input_screen (t : Z) (i : input) (s : screen) : screen :=
  let d := handle t i (deb s) in
  let snap := if decide (searchQuery d = searchQuery (deb s)) then snapshot s
              else data (st (hook s)) in
  Screen d (hook s) snap (callbacks s) (recorded s).

Definition settle (k : nat) (o : settled (list Movie.t)) (s : screen) : screen :=
  if decide (k ∈ inflight (hook s)) then
    let s1 := set_hook (hook_step (hook s) (EvSettle k o)) s in
    let changed := match o with Resolved _ => true | Rejected _ => false end in
    effect_movies changed (resume k s1)
  else s.

Definition sstep (s : screen) (e : sevent) : screen :=
  match e with
  | STick t => tick t s
  | SInput t i => input_screen t i (tick t s)
  | SSettle k o => settle k o s
  end.

Definition srun (s : screen) (es : list sevent) : screen := foldl sstep s es.

(** Settlements that hand [setData] a non-empty list. *)
Fixpoint nonempty_results (es : list sevent) : nat :=
  match es with
  | [] => O
  | SSettle _ (Resolved (_ :: _)) :: es' => S (nonempty_results es')
  | _ :: es' => nonempty_results es'
  end.

(** ** The rendered list header and empty state *)

(** What [search] renders besides the background and the logo: the
    loader, the error text, the results title, the list's items and the
    list's empty component. *)
Record search_view := SearchView {
  loader : bool;
  error_text : option jstring;
  results_title : option jstring;
  items : list Movie.t;
  empty_text : option jstring;
}.

(** The JSX of [search]: [{loading && <ActivityIndicator/>}],
    [{error && <Text>Error: {error.message}</Text>}], the title when
    [!loading && !error && searchQuery.trim() && movies?.length > 0], the
    [FlatList] over [movies] (no item when it is [null]), and its
    [ListEmptyComponent], shown when there is no item. *)
Definition search_view_of (s : screen) : search_view :=
  let f := st (hook s) in
  let q := searchQuery (deb s) in
  let quiet := negb (loading f) && negb (bool_decide (is_Some (error f))) in
  let its := default [] (data f) in
  SearchView (loading f) (err_message <$> error f)
    (if quiet && negb (bool_decide (trim q = [])) && js_gt0 (data f ≫= array_prop ⟪"length"⟫)
     then Some q else None)
    its
    (match its with
     | [] => if quiet then Some (if bool_decide (trim q = []) then ⟪"Search for a movie"⟫
                                 else ⟪"No movies found"⟫)
             else None
     | _ :: _ => None
     end).

(** The invariant of the records: no blank search term. *)
Definition nonblank_records (s : screen) : Prop :=
  Forall (fun r => trim r.1 <> []) (recorded s).

(** Two results of the TMDB search, for the scenarios. *)
Definition the_batman : Movie.t := Movie.MkMovie 155 ⟪"The Batman"⟫ (Some ⟪"/abc.jpg"⟫).
Definition bat_movie : Movie.t := Movie.MkMovie 1 ⟪"Bat"⟫ None.

End SearchScreen.

(** ** Theorems *)
Module SearchScreenFacts.
Import UseFetch Debounce SearchScreen.
Local Open Scope Z_scope.

Lemma guard_false movies : timeout_record_guard movies = false.
Proof. destruct movies; reflexivity. Qed.

(** C25.  The callback's own [updateSearchCount] call is dead code:
    [movies?.lenght] is [undefined] for every value of [movies], so the
    guard is false and only the [[movies]] effect records searches. *)
Theorem timeout_record_guard_false movies : timeout_record_guard movies = false.
Proof. apply guard_false. Qed.

Lemma resume_same k s : resume k s = s.
Proof.
  unfold resume. destruct (list_find _ _) as [[? [? [q [[|m l]|]]]]|]; try done;
  by rewrite guard_false.
Qed.

Lemma effect_movies_inv b s : nonblank_records s -> nonblank_records (effect_movies b s).
Proof.
  unfold effect_movies. destruct b; [|done].
  destruct (data (st (hook s))) as [[|m l]|]; try done.
  destruct (trim (searchQuery (deb s))) eqn:E; [done|]. intros H.
  unfold nonblank_records, log_record. simpl. apply Forall_app. split; [done|].
  constructor; [simpl; by rewrite E|constructor].
Qed.

(** Each event adds at most one record, and only a settlement with a
    non-empty list adds one. *)
Lemma effect_movies_len b s :
  (length (recorded (effect_movies b s)) <=
    length (recorded s) + (if b then match data (st (hook s)) with
                                     | Some (_ :: _) => 1 | _ => 0 end else 0))%nat.
Proof.
  unfold effect_movies. destruct b; [|simpl; lia].
  destruct (data (st (hook s))) as [[|m l]|]; simpl; try lia.
  destruct (trim _); simpl; [lia|]. rewrite length_app. simpl. lia.
Qed.

Lemma fire_recorded a s :
  (nonblank_records s -> nonblank_records (fire a s)) /\
  (length (recorded (fire a s)) <= length (recorded s))%nat.
Proof.
  destruct a as [q|]; simpl; [split; [done|lia]|].
  split; [intros; by apply effect_movies_inv|].
  etransitivity; [apply effect_movies_len|]. simpl.
  unfold hook_step. simpl. case_bool_decide; simpl; lia.
Qed.

Lemma tick_recorded t s :
  (nonblank_records s -> nonblank_records (tick t s)) /\
  (length (recorded (tick t s)) <= length (recorded s))%nat.
Proof.
  unfold tick. destruct (advance t (deb s)) as [d fired].
  remember (Screen d (hook s) (snapshot s) (callbacks s) (recorded s)) as s0.
  assert (H0 : (nonblank_records s -> nonblank_records s0) /\
               (length (recorded s0) <= length (recorded s))%nat) by (subst; simpl; split; [done|lia]).
  clear Heqs0. revert s0 H0. induction fired as [|a fired IH]; intros s0 H0; [done|].
  simpl. apply IH. destruct (fire_recorded a.2 s0) as [H1 H2]. split; [tauto|lia].
Qed.

Lemma sstep_recorded s e :
  (nonblank_records s -> nonblank_records (sstep s e)) /\
  (length (recorded (sstep s e)) <= length (recorded s) +
    (match e with SSettle _ (Resolved (_ :: _)) => 1 | _ => 0 end))%nat.
Proof.
  destruct e as [t|t i|k o]; simpl.
  - destruct (tick_recorded t s) as [H1 H2]. split; [done|lia].
  - destruct (tick_recorded t s) as [H1 H2]. unfold input_screen, nonblank_records in *.
    simpl. split; [done|lia].
  - unfold settle. case_decide; [|split; [done|lia]].
    rewrite resume_same. split; [intros; by apply effect_movies_inv|].
    etransitivity; [apply effect_movies_len|]. simpl.
    unfold hook_step. simpl. rewrite decide_True by done.
    destruct o as [[|m l]|t]; simpl; lia.
Qed.

Lemma srun_recorded es : forall s,
  (nonblank_records s -> nonblank_records (srun s es)) /\
  (length (recorded (srun s es)) <= length (recorded s) + nonempty_results es)%nat.
Proof.
  induction es as [|e es IH]; intros s; [simpl; split; [done|lia]|].
  unfold srun. simpl. fold (srun (sstep s e) es).
  destruct (sstep_recorded s e) as [H1 H2]. destruct (IH (sstep s e)) as [H3 H4].
  split; [tauto|]. destruct e as [|?|? [[|? ?]|?]]; simpl in *; lia.
Qed.

(** C26.  Whatever the inputs, timers and network outcomes, the screen
    never records a search term that is empty or white space only. *)
Theorem records_nonblank t0 es :
  Forall (fun r => trim r.1 <> []) (recorded (srun (mount_screen t0) es)).
Proof. apply (proj1 (srun_recorded es (mount_screen t0))). constructor. Qed.

(** C27.  At most one [updateSearchCount] per search result: the number of
    recorder calls never exceeds the number of [fetchMovies] results that
    are non-empty lists. *)
Theorem records_bounded_by_results t0 es :
  (length (recorded (srun (mount_screen t0) es)) <= nonempty_results es)%nat.
Proof. pose proof (proj2 (srun_recorded es (mount_screen t0))). simpl in *. lia. Qed.

(** ** Steps of the screen at symbolic inputs *)

Lemma trim_nonblank_ne q : trim q <> [] -> q <> [].
Proof. by intros H ->. Qed.

Lemma leb_true a b : a <= b -> (a <=? b) = true.
Proof. apply Z.leb_le. Qed.

(** The settlement of a call in flight with a list: the hook's state is
    updated, the callback's guard is dead, and the [[movies]] effect runs. *)
Lemma settle_resolved s k l : k ∈ inflight (hook s) ->
  sstep s (SSettle k (Resolved l)) =
    effect_movies true (set_hook (Config (fetchData_settle (Resolved l) (st (hook s)))
                                   (filter (fun j => j ≠ k) (inflight (hook s))) (next_call (hook s))) s).
Proof.
  intros Hk. simpl. unfold settle. rewrite decide_True by done. rewrite resume_same.
  unfold hook_step. simpl. by rewrite decide_True by done.
Qed.

(** The scenario of the design, one event at a time: an input after the
    mount's timeout has fired, ... *)
Lemma scenario_input t0 t1 q :
  t0 + DEBOUNCE_MS <= t1 -> q <> [] ->
  sstep (mount_screen t0) (SInput t1 (Change q)) =
    Screen (DState q (Some (effect_run t1 q)) true) (mount false) None [] [].
Proof.
  intros H Hq. unfold sstep, tick, advance, mount_screen, mount_debounce, effect_run.
  cbn [deb pending deadline]. rewrite leb_true by (unfold DEBOUNCE_MS in *; lia).
  simpl. unfold input_screen. simpl. rewrite decide_False by done. simpl.
  rewrite decide_False by done. reflexivity.
Qed.

(** ... its timeout firing [loadMovies()], ... *)
Lemma scenario_tick t1 t2 q :
  t1 + DEBOUNCE_MS <= t2 -> trim q <> [] ->
  sstep (Screen (DState q (Some (effect_run t1 q)) true) (mount false) None [] []) (STick t2) =
    Screen (DState q None true) (Config (fetchData_start initial_state) [0%nat] 1) None
      [(0%nat, (q, None))] [].
Proof.
  intros H Hq. unfold sstep, tick, advance, effect_run.
  cbn [deb pending deadline]. rewrite leb_true by (unfold DEBOUNCE_MS in *; lia).
  cbn -[trim]. unfold on_timeout. destruct (trim q); [done|]. reflexivity.
Qed.

(** ... the search resolving, ... *)
Lemma scenario_settle q m ms :
  trim q <> [] ->
  sstep (Screen (DState q None true) (Config (fetchData_start initial_state) [0%nat] 1) None
           [(0%nat, (q, None))] []) (SSettle 0 (Resolved (m :: ms))) =
  Screen (DState q None true) (Config (FetchState (Some (m :: ms)) false None) [] 1) None
    [(0%nat, (q, None))] [(q, m)].
Proof.
  intros Hq. rewrite settle_resolved by set_solver. unfold effect_movies. cbn -[trim].
  destruct (trim q); [done|]. reflexivity.
Qed.

(** ... the input cleared, ... *)
Lemma scenario_clear t3 q d cb rs :
  q <> [] ->
  sstep (Screen (DState q None true) (Config (FetchState (Some d) false None) [] 1) None cb rs)
    (SInput t3 (Change [])) =
  Screen (DState [] (Some (effect_run t3 [])) true) (Config (FetchState (Some d) false None) [] 1)
    (Some d) cb rs.
Proof.
  intros Hq. unfold sstep, tick, advance. cbn [deb pending]. unfold input_screen. simpl.
  rewrite !decide_False by done. reflexivity.
Qed.

(** ... and its timeout firing [reset()]. *)
Lemma scenario_reset t3 t4 d cb rs :
  t3 + DEBOUNCE_MS <= t4 ->
  sstep (Screen (DState [] (Some (effect_run t3 [])) true) (Config (FetchState (Some d) false None) [] 1)
           (Some d) cb rs) (STick t4) =
  Screen (DState [] None true) (Config (FetchState None false None) [] 1) (Some d) cb rs.
Proof.
  intros H. unfold sstep, tick, advance, effect_run. cbn [deb pending deadline].
  rewrite leb_true by (unfold DEBOUNCE_MS in *; lia). reflexivity.
Qed.

(** C28.  The two scenarios of the design, for every search term, every
    list of results and every timing that respects the 500 ms window.  A
    non-blank term [q] typed after the mount's timeout and held for
    500 ms, the search resolving with [m :: ms]: [data] holds the whole
    list, [loading] is false, [error] is null, the screen shows the title
    "Search Results for [q]" over the list, and the recorder has been
    called once, with [(q, m)].  The input then cleared and held for
    500 ms: [reset()] runs, [data] is null, the screen shows "Search for a
    movie" again, and the recorder is not called again. *)
Theorem design_scenarios t0 t1 t2 t3 t4 q m ms :
  t0 + DEBOUNCE_MS <= t1 -> t1 + DEBOUNCE_MS <= t2 -> t3 + DEBOUNCE_MS <= t4 ->
  trim q <> [] ->
  let s2 := srun (mount_screen t0) [SInput t1 (Change q); STick t2; SSettle 0 (Resolved (m :: ms))] in
  let s3 := srun s2 [SInput t3 (Change []); STick t4] in
  st (hook s2) = FetchState (Some (m :: ms)) false None /\
  recorded s2 = [(q, m)] /\
  search_view_of s2 = SearchView false None (Some q) (m :: ms) None /\
  st (hook s3) = FetchState None false None /\
  recorded s3 = [(q, m)] /\
  search_view_of s3 = SearchView false None None [] (Some ⟪"Search for a movie"⟫).
Proof.
  intros H1 H2 H4 Hq. pose proof (trim_nonblank_ne q Hq) as Hne.
  cbv zeta. unfold srun. cbn [foldl].
  rewrite scenario_input, scenario_tick, scenario_settle, scenario_clear, scenario_reset by done.
  destruct (trim q) as [|c r] eqn:Et; [done|].
  unfold search_view_of. simpl. rewrite Et. simpl. split_and!; reflexivity.
Qed.

(** C29.  The term recorded is the search bar's text when the results
    arrive, untrimmed, not the term that was searched: whatever query the
    settling call [k] was started for, a settlement with a non-empty list
    records the current [searchQuery] as it is (so " batman " is a
    different key of the collection than "batman", and results of "bat"
    that arrive after the user typed "batman" are recorded under
    "batman"), or nothing when that text is blank. *)
Theorem settle_records_current_query s k m ms :
  k ∈ inflight (hook s) ->
  recorded (sstep s (SSettle k (Resolved (m :: ms)))) =
    recorded s ++ (if bool_decide (trim (searchQuery (deb s)) = []) then []
                   else [(searchQuery (deb s), m)]).
Proof.
  intros Hk. rewrite settle_resolved by done. unfold effect_movies. simpl.
  destruct (trim _) eqn:E; simpl; [by rewrite app_nil_r|done].
Qed.

(** C34.  A settlement is shown whatever the search bar holds: when the
    input is blank (the user cleared it and [reset()] ran) and a search
    started before is still in flight, its results arrive and the screen
    lists them under the empty search bar, without a title and without
    the "Search for a movie" message, and nothing is recorded. *)
Theorem stale_results_after_clear s k l :
  k ∈ inflight (hook s) -> trim (searchQuery (deb s)) = [] -> l <> [] ->
  let s' := sstep s (SSettle k (Resolved l)) in
  data (st (hook s')) = Some l /\ items (search_view_of s') = l /\
  results_title (search_view_of s') = None /\ empty_text (search_view_of s') = None /\
  recorded s' = recorded s.
Proof.
  intros Hk Hq Hl. cbv zeta. rewrite settle_resolved by done. unfold effect_movies. simpl.
  destruct l as [|m ms]; [done|]. rewrite Hq. unfold search_view_of. simpl. rewrite Hq.
  simpl. rewrite andb_false_r. done.
Qed.

End SearchScreenFacts.

Module SearchScreenWitnesses.
Import UseFetch Debounce SearchScreen SearchScreenFacts.
Local Open Scope Z_scope.

(** The scenario of the design: "batman" typed at 1000 ms, its timeout at
    1500 ms, The Batman and Bat in return; the input cleared at 2000 ms and
    its timeout at 2500 ms. *)
Lemma design_scenarios_witness :
  0 + DEBOUNCE_MS <= 1000 /\ 1000 + DEBOUNCE_MS <= 1500 /\ 2000 + DEBOUNCE_MS <= 2500 /\
  trim ⟪"batman"⟫ <> [] /\
  recorded (srun (mount_screen 0) [SInput 1000 (Change ⟪"batman"⟫); STick 1500;
                                   SSettle 0 (Resolved [the_batman; bat_movie])]) =
    [(⟪"batman"⟫, the_batman)].
Proof.
  assert (H1 : 0 + DEBOUNCE_MS <= 1000) by (unfold DEBOUNCE_MS; lia).
  assert (H2 : 1000 + DEBOUNCE_MS <= 1500) by (unfold DEBOUNCE_MS; lia).
  assert (H4 : 2000 + DEBOUNCE_MS <= 2500) by (unfold DEBOUNCE_MS; lia).
  assert (Hq : trim ⟪"batman"⟫ <> []) by (vm_compute; discriminate).
  split_and!; [exact H1|exact H2|exact H4|exact Hq|].
  exact (proj1 (proj2 (design_scenarios 0 1000 1500 2000 2500 _ the_batman [bat_movie] H1 H2 H4 Hq))).
Defined.

(** "bat" searched, "batman" typed before its results arrive: the call
    for "bat" is still in flight, and its results are recorded under
    "batman". *)
Definition bat_then_batman : screen :=
  srun (mount_screen 0) [SInput 1000 (Change ⟪"bat"⟫); STick 1500; SInput 1600 (Change ⟪"batman"⟫)].

Lemma settle_records_current_query_witness :
  0%nat ∈ inflight (hook bat_then_batman) /\
  recorded (sstep bat_then_batman (SSettle 0 (Resolved [bat_movie]))) = [(⟪"batman"⟫, bat_movie)].
Proof.
  assert (Hk : 0%nat ∈ inflight (hook bat_then_batman)) by (vm_compute; left).
  split; [exact Hk|]. rewrite (settle_records_current_query _ _ _ _ Hk). vm_compute. reflexivity.
Defined.

(** "batman" searched, the input cleared and [reset()] run while the
    search is in flight. *)
Definition cleared_in_flight : screen :=
  srun (mount_screen 0) [SInput 1000 (Change ⟪"batman"⟫); STick 1500; SInput 1600 (Change []); STick 2100].

Lemma stale_results_after_clear_witness :
  data (st (hook cleared_in_flight)) = None /\
  0%nat ∈ inflight (hook cleared_in_flight) /\ trim (searchQuery (deb cleared_in_flight)) = [] /\
  items (search_view_of (sstep cleared_in_flight (SSettle 0 (Resolved [the_batman])))) = [the_batman].
Proof.
  assert (Hk : 0%nat ∈ inflight (hook cleared_in_flight)) by (vm_compute; left).
  assert (Hq : trim (searchQuery (deb cleared_in_flight)) = []) by reflexivity.
  split_and!; [reflexivity|exact Hk|exact Hq|].
  exact (proj1 (proj2 (stale_results_after_clear _ _ [the_batman] Hk Hq ltac:(discriminate)))).
Defined.

End SearchScreenWitnesses.
