(* ===== verification/Recording.v ===== *)
(** * The search screen and the analytics store together

    The [[movies]] effect of [src/app/(tabs)/search.tsx] calls
    [updateSearchCount(searchQuery, movies[0])] without [await]: each call
    of the log [recorded] of [SearchScreen] becomes a call of
    [Appwrite.updateSearchCount] whose two segments the event loop runs
    whenever their promises settle.  [screen_calls] pairs the log with the
    values [ID.unique()] returns; [replay] runs the calls against the
    collection held in memory under a schedule of their segments;
    [sequential] is the schedule where each call ends before the next
    starts. *)

From stdpp Require Import base list sets.
From Stdlib Require Import ZArith Lia.
From S2P Require Import Prelude FetchState Debounce Appwrite SearchScreen.

Module Recording.
Import Appwrite SearchScreen.
Local Open Scope Z_scope.

(** The calls the screen made, in order, with their [ID.unique()] values. *)
Definition screen_calls (recs : list (jstring * Movie.t)) (ids : list jstring) : list call :=
  zip_with (fun r i => Call i r.1 r.2) recs ids.

(** The event loop runs the segments the schedule names, every call
    starting [Idle]. *)
Definition replay (docs : list document) (calls : list call) (sched : list nat)
    : list phase * list document :=
  run_schedule calls (replicate (length calls) Idle) sched docs.

(** The collection once a call has run to its end. *)
Definition after_call (docs : list document) (c : call) : list document :=
  (updateSearchCount (call_newid c) (call_query c) (call_movie c) docs).2.

(** Call [i]'s listing then its write, for each call in turn. *)
Definition sequential (n : nat) : list nat := mjoin (map (fun i => [i; i]) (seq 0 n)).

(** ** Bounds under any schedule *)

Definition is_finished (p : phase) : bool :=
  match p with Finished _ => true | _ => false end.

(** The calls for [q] that have run their write. *)
Definition writes_done (calls : list call) (phases : list phase) (q : jstring) : nat :=
  length (filter (fun cp => call_query cp.1 = q /\ is_finished cp.2 = true) (zip calls phases)).

(** The largest count of a document for [q], 0 when there is none. *)
Definition term_max (docs : list document) (q : jstring) : Z :=
  foldr (fun d m => if decide (searchTerm d = q) then Z.max (count d) m else m) 0 docs.

Definition id_term (d : document) : jstring * jstring := (doc_id d, searchTerm d).

(** A document's count is at most [B] of its term plus the writes done
    for that term. *)
Definition count_ok (calls : list call) (B : jstring -> Z) (phases : list phase)
    (d : document) : Prop :=
  count d <= B (searchTerm d) + Z.of_nat (writes_done calls phases (searchTerm d)).

(** A document of the listing a suspended call holds: one of its term,
    typed, bounded, and still in the collection. *)
Definition listing_ok (calls : list call) (B : jstring -> Z) (phases : list phase)
    (docs : list document) (c : call) (d : document) : Prop :=
  searchTerm d = call_query c /\ count_typed d /\ count_ok calls B phases d /\
  id_term d ∈ id_term <$> docs.

(** The invariant of an interleaving. *)
Definition bound_inv (calls : list call) (B : jstring -> Z) (phases : list phase)
    (docs : list document) : Prop :=
  length phases = length calls /\ ids_unique docs /\ Forall count_typed docs /\
  Forall (count_ok calls B phases) docs /\
  forall i c ds, calls !! i = Some c -> phases !! i = Some (Queried (Resolved ds)) ->
    Forall (listing_ok calls B phases docs c) ds.

End Recording.

(** ** Theorems *)
Module RecordingFacts.
Import Appwrite AppwriteFacts SearchScreen SearchScreenFacts Recording.
Local Open Scope Z_scope.

(** The sequential schedule from call [k] on runs the calls one after the
    other. *)
Lemma run_sequential calls m : forall k phases docs,
  (k + m <= length calls)%nat ->
  (forall j, (k <= j < k + m)%nat -> phases !! j = Some Idle) ->
  (run_schedule calls phases (mjoin (map (fun i => [i; i]) (seq k m))) docs).2 =
    foldl (after_call) docs (take m (drop k calls)).
Proof.
  induction m as [|m IH]; intros k phases docs Hlen Hidle; [by rewrite take_0|].
  destruct (lookup_lt_is_Some_2 calls k) as [c Hc]; [lia|].
  rewrite (drop_S _ _ _ Hc). simpl. rewrite Hc, (Hidle k) by lia.
  destruct (step_call c Idle docs) as [p1 d1] eqn:E1. simpl.
  assert (Hk : (k < length phases)%nat) by (apply (lookup_lt_Some _ _ Idle), Hidle; lia).
  rewrite list_lookup_insert, decide_True by done.
  pose proof (step_call_whole c docs) as Hw. cbv zeta in Hw. rewrite E1 in Hw. simpl in Hw.
  rewrite Hw. simpl. rewrite list_insert_insert, decide_True by done. fold (after_call docs c). apply IH; [lia|].
  intros j Hj. rewrite list_lookup_insert_ne by lia. apply Hidle. lia.
Qed.

Lemma replay_sequential docs calls :
  (replay docs calls (sequential (length calls))).2 = foldl (after_call) docs calls.
Proof.
  unfold replay, sequential. rewrite run_sequential; [by rewrite drop_0, take_ge| |].
  - lia.
  - intros j Hj. apply lookup_replicate_2. lia.
Qed.

(** Calls one after the other, each with a fresh identifier: the counts
    move as the abstract counter, term by term. *)
Lemma fold_calls_count recs : forall ids (docs : list document),
  length ids = length recs -> NoDup ids -> Forall (fun i => i ∉ doc_id <$> docs) ids ->
  ids_unique docs ->
  (forall q, 0 <= term_count docs q /\ term_count docs q + Z.of_nat (length recs) < max_safe) ->
  let docs' := foldl (after_call) docs (screen_calls recs ids) in
  ids_unique docs' /\
  forall q, term_count docs' q = term_count docs q + Z.of_nat (length (filter (fun r => r.1 = q) recs)).
Proof.
  induction recs as [|[q m] recs IH]; intros ids docs Hl Hnd Hfresh Hu Hc.
  - split; [done|]. intros q. simpl. lia.
  - destruct ids as [|i ids]; [done|]. simpl in Hl. apply NoDup_cons in Hnd as [Hi Hnd].
    apply Forall_cons in Hfresh as [Hi0 Hfresh].
    destruct (usc_counter_step i q m docs Hu Hi0) as (d1 & Hr & Hu1 & Hids & Hcnt).
    { specialize (Hc q). simpl in Hc. lia. }
    simpl. replace (after_call docs _) with d1 by (unfold after_call; simpl; by rewrite Hr).
    assert (Hc1 : forall q', term_count d1 q' = term_count docs q' + if decide (q' = q) then 1 else 0).
    { intros q'. rewrite Hcnt. unfold record_spec. case_decide; subst; lia. }
    destruct (IH ids d1) as [Hu' Hcount]; [lia|done| |done| |].
    + apply Forall_forall. intros j Hj Hjd. apply Hids in Hjd.
      apply elem_of_cons in Hjd as [->|Hjd]; [done|].
      by apply (proj1 (Forall_forall _ _) Hfresh j Hj).
    + intros q'. rewrite Hc1. specialize (Hc q'). simpl in Hc. case_decide; lia.
    + split; [done|]. intros q'. rewrite Hcount, Hc1, filter_cons. simpl.
      case_decide; case_decide; simpl; subst; try congruence; lia.
Qed.

(** The calls bring no search term but theirs. *)
Lemma fold_calls_terms (P : jstring -> Prop) recs ids (docs : list document) :
  Forall (fun r => P r.1) recs -> Forall (fun d => P (searchTerm d)) docs ->
  Forall (fun d => P (searchTerm d)) (foldl after_call docs (screen_calls recs ids)).
Proof.
  revert ids docs. induction recs as [|[q m] recs IH]; intros ids docs Hr Hd; [done|].
  destruct ids as [|i ids]; [done|]. apply Forall_cons in Hr as [Hq Hr]. simpl.
  apply IH; [done|]. apply Forall_forall. intros d Hin.
  assert (Ht : searchTerm d ∈ q :: (searchTerm <$> docs)).
  { apply (usc_terms i q m docs). apply list_elem_of_fmap. eauto. }
  apply elem_of_cons in Ht as [->|Ht]; [done|].
  apply list_elem_of_fmap in Ht as (d' & -> & Hd'). by eapply Forall_forall in Hd.
Qed.

Lemma length_screen_calls recs ids :
  length ids = length recs -> length (screen_calls recs ids) = length recs.
Proof. intros H. unfold screen_calls. rewrite length_zip_with. lia. Qed.

(** C8.  The search screen and the analytics store together refine the
    design's search counter: when the [updateSearchCount] calls the screen
    makes run one after the other, each with a fresh [ID.unique()], the
    count of every term grows by the number of times the screen recorded
    it, and no document with a blank search term ever appears. *)
Theorem screen_searches_counted t0 es (docs : list document) ids :
  let recs := recorded (srun (mount_screen t0) es) in
  length ids = length recs -> NoDup ids -> Forall (fun i => i ∉ doc_id <$> docs) ids ->
  ids_unique docs ->
  (forall q, 0 <= term_count docs q /\ term_count docs q + Z.of_nat (length recs) < max_safe) ->
  let docs' := (replay docs (screen_calls recs ids) (sequential (length recs))).2 in
  (forall q, term_count docs' q =
               term_count docs q + Z.of_nat (length (filter (fun r => r.1 = q) recs))) /\
  (Forall (fun d => trim (searchTerm d) <> []) docs ->
   Forall (fun d => trim (searchTerm d) <> []) docs').
Proof.
  intros recs Hl Hnd Hfresh Hu Hc docs'. unfold docs'.
  replace (sequential (length recs)) with (sequential (length (screen_calls recs ids)))
    by (by rewrite length_screen_calls).
  rewrite replay_sequential. split.
  - by apply fold_calls_count.
  - intros Hd. apply (fold_calls_terms (fun t => trim t <> [])); [|done].
    apply (proj1 (srun_recorded es (mount_screen t0))). constructor.
Qed.

(** *** Interleavings never over-count *)

Definition fin (c : call) (p : phase) (q : jstring) : nat :=
  if decide (call_query c = q /\ is_finished p = true) then 1 else 0.

Lemma writes_done_insert calls phases i c p p' q :
  calls !! i = Some c -> phases !! i = Some p ->
  (writes_done calls (<[i:=p']> phases) q + fin c p q = writes_done calls phases q + fin c p' q)%nat.
Proof.
  intros Hc Hp. unfold writes_done, fin.
  assert (E : zip calls (<[i:=p']> phases) = <[i:=(c, p')]> (zip calls phases)).
  { rewrite (insert_zip_with pair calls phases i c p'). by rewrite (list_insert_id calls i c Hc). }
  assert (Hz : zip calls phases !! i = Some (c, p)) by (rewrite lookup_zip_with, Hc, Hp; done).
  pose proof (length_filter_insert (fun cp => call_query cp.1 = q /\ is_finished cp.2 = true)
                _ i _ (c, p') Hz) as H.
  rewrite E. simpl in H. repeat case_decide; simpl in *; tauto || lia.
Qed.

Lemma js_add_one_le c : 1 <= c <= max_safe -> js_add c 1 <= c + 1.
Proof.
  intros Hc. destruct (Z.eq_dec c max_safe) as [->|]; [vm_compute; discriminate|].
  rewrite js_add_exact; lia.
Qed.

Lemma term_max_ge docs d : d ∈ docs -> count d <= term_max docs (searchTerm d).
Proof.
  induction docs as [|d' docs IH]; [set_solver|]. intros [->|Hin]%elem_of_cons; simpl.
  - rewrite decide_True by done. lia.
  - specialize (IH Hin). case_decide; lia.
Qed.

Lemma term_max_nonneg docs q : 0 <= term_max docs q.
Proof. induction docs; simpl; [lia|]. case_decide; lia. Qed.

(** What the write of a call does to the collection held in memory:
    nothing (a rejection), the update of the document with the listed
    identifier, or the creation of a document with a fresh identifier. *)
Lemma usc_write_cases newid q m ds (docs : list document) :
  let docs' := (usc_write newid q m ds docs).2 in
  docs' = docs \/
  (exists d rest k d'', ds = d :: rest /\ docs !! k = Some d'' /\ doc_id d'' = doc_id d /\
     docs' = <[k := set_count (js_add (count d) 1) d'']> docs) \/
  (ds = [] /\ newid ∉ doc_id <$> docs /\ docs' = docs ++ [new_document newid q m]).
Proof.
  destruct ds as [|d rest]; unfold usc_write, mbind, async_bind; simpl.
  - unfold mem_create. case_decide; simpl; [by left|]. right; right. done.
  - unfold mem_update. destruct (list_find _ docs) as [[k d'']|] eqn:E; simpl; [|by left].
    apply list_find_Some in E as (Hk & Hid & _). right; left. eauto 10.
Qed.

Lemma count_ok_mono calls B phases phases' d :
  (forall q, writes_done calls phases q <= writes_done calls phases' q)%nat ->
  count_ok calls B phases d -> count_ok calls B phases' d.
Proof. unfold count_ok. intros HW. specialize (HW (searchTerm d)). lia. Qed.

Lemma listing_ok_mono calls B phases phases' docs docs' c d :
  (forall q, writes_done calls phases q <= writes_done calls phases' q)%nat ->
  id_term <$> docs ⊆ id_term <$> docs' ->
  listing_ok calls B phases docs c d -> listing_ok calls B phases' docs' c d.
Proof.
  intros HW Hsub (? & ? & ? & ?). split_and!; [done|done|eapply count_ok_mono; [exact HW|done]|by apply Hsub].
Qed.

(** A segment that leaves no listing behind keeps the listings of the other
    calls valid, when the writes done only grow and no document leaves. *)
Lemma listings_after calls B phases docs docs' i p' :
  (forall j c ds, calls !! j = Some c -> phases !! j = Some (Queried (Resolved ds)) ->
     Forall (listing_ok calls B phases docs c) ds) ->
  (forall ds, p' <> Queried (Resolved ds)) ->
  (forall q, writes_done calls phases q <= writes_done calls (<[i:=p']> phases) q)%nat ->
  id_term <$> docs ⊆ id_term <$> docs' ->
  forall j c ds, calls !! j = Some c -> <[i:=p']> phases !! j = Some (Queried (Resolved ds)) ->
    Forall (listing_ok calls B (<[i:=p']> phases) docs' c) ds.
Proof.
  intros Hl Hp' HW Hsub j c ds Hc Hj. rewrite list_lookup_insert in Hj.
  case_decide as Hij; [destruct Hij as [<- _]; injection Hj as Hj; exfalso; exact (Hp' ds Hj)|].
  eapply Forall_impl; [exact (Hl j c ds Hc Hj)|]. intros d. by apply listing_ok_mono.
Qed.

(** The writes done after a call's segment from [p] to [p']. *)
Lemma writes_done_step calls phases i c p p' q :
  calls !! i = Some c -> phases !! i = Some p -> is_finished p = false ->
  Z.of_nat (writes_done calls (<[i:=p']> phases) q) =
    Z.of_nat (writes_done calls phases q) +
    (if decide (call_query c = q /\ is_finished p' = true) then 1 else 0).
Proof.
  intros Hc Hp Hf. pose proof (writes_done_insert calls phases i c p p' q Hc Hp) as H.
  unfold fin in H. rewrite decide_False in H by (intros [_ Hx]; congruence).
  case_decide; lia.
Qed.

Lemma id_term_insert_set_count (docs : list document) k d c :
  docs !! k = Some d -> id_term <$> <[k := set_count c d]> docs = id_term <$> docs.
Proof.
  intros Hk. rewrite list_fmap_insert, list_insert_id; [done|]. rewrite list_lookup_fmap, Hk.
  by destruct d.
Qed.

Lemma ids_unique_insert_set_count (docs : list document) k d c :
  docs !! k = Some d -> ids_unique docs -> ids_unique (<[k := set_count c d]> docs).
Proof.
  intros Hk. unfold ids_unique. rewrite list_fmap_insert, list_insert_id; [done|].
  rewrite list_lookup_fmap, Hk. by destruct d.
Qed.

(** The listing of call [i]: its first document names, by identifier, a
    document of the collection for the same term. *)
Lemma listed_doc_in_store (docs : list document) d k d'' :
  ids_unique docs -> id_term d ∈ id_term <$> docs -> docs !! k = Some d'' ->
  doc_id d'' = doc_id d -> searchTerm d'' = searchTerm d.
Proof.
  intros Hu Hin Hk Hid. apply list_elem_of_fmap in Hin as (d0 & Heq & Hd0).
  unfold id_term in Heq. injection Heq as Hi Ht.
  assert (d0 = d'') as -> by (apply (NoDup_fmap_same_key doc_id docs); [done|done|
    by eapply list_elem_of_lookup_2|congruence]).
  done.
Qed.

(** A call finishes without touching the collection. *)
Lemma bound_finish calls B phases docs i c p r :
  bound_inv calls B phases docs -> calls !! i = Some c -> phases !! i = Some p ->
  is_finished p = false -> bound_inv calls B (<[i:=Finished r]> phases) docs.
Proof.
  intros (Hlen & Hu & Ht & Hb & Hl) Hc Hp Hf.
  assert (HWle : forall q, (writes_done calls phases q <= writes_done calls (<[i:=Finished r]> phases) q)%nat)
    by (intros q; pose proof (writes_done_step calls phases i c p (Finished r) q Hc Hp Hf); case_decide; lia).
  split_and!; [by rewrite length_insert|done|done| |].
  - eapply Forall_impl; [exact Hb|]. intros d. by apply count_ok_mono.
  - apply (listings_after _ _ _ _ _ _ _ Hl); [discriminate|done|done].
Qed.

(** The listing segment: the documents for the call's term, each of them
    bounded, become its listing. *)
Lemma bound_listing calls B phases docs i c :
  bound_inv calls B phases docs -> calls !! i = Some c -> phases !! i = Some Idle ->
  bound_inv calls B (<[i:=(step_call c Idle docs).1]> phases) (step_call c Idle docs).2.
Proof.
  intros (Hlen & Hu & Ht & Hb & Hl) Hc Hp. rewrite step_call_idle. simpl.
  set (p' := Queried (Resolved (filter (fun d => searchTerm d = call_query c) docs))).
  assert (HW : forall q, writes_done calls (<[i:=p']> phases) q = writes_done calls phases q).
  { intros q. pose proof (writes_done_step calls phases i c Idle p' q Hc Hp eq_refl) as H.
    rewrite decide_False in H by (intros [_ Hx]; discriminate). lia. }
  split_and!; [by rewrite length_insert|done|done|
    eapply Forall_impl; [exact Hb|]; intros d; apply count_ok_mono; intros q; rewrite HW; lia|].
  intros j c' ds Hc' Hj. rewrite list_lookup_insert in Hj. case_decide as Hij.
  - destruct Hij as [<- _]. rewrite Hc in Hc'. injection Hc' as <-. injection Hj as <-.
    apply Forall_forall. intros d (Hq & Hin)%list_elem_of_filter.
    split_and!; [done|by eapply Forall_forall in Ht| |by apply list_elem_of_fmap_2].
    apply (count_ok_mono calls B phases); [intros q; rewrite HW; lia|exact (proj1 (Forall_forall _ _) Hb d Hin)].
  - eapply Forall_impl; [exact (Hl j c' ds Hc' Hj)|]. intros d.
    apply listing_ok_mono; [intros q; rewrite HW; lia|done].
Qed.

(** The write segment: the update of the listed document, from a count
    bounded by the writes done before, or the creation of a document with
    count 1, stays within the writes done after. *)
Lemma bound_write calls B phases docs i c ds r docs' :
  (forall q, 0 <= B q) -> bound_inv calls B phases docs ->
  calls !! i = Some c -> phases !! i = Some (Queried (Resolved ds)) ->
  usc_write (call_newid c) (call_query c) (call_movie c) ds docs = (r, docs') ->
  bound_inv calls B (<[i:=Finished r]> phases) docs'.
Proof.
  intros HB Hinv Hc Hp E. pose proof (bound_finish _ _ _ _ i c _ r Hinv Hc Hp eq_refl) as Hfin.
  destruct Hinv as (Hlen & Hu & Ht & Hb & Hl). pose proof (Hl i c ds Hc Hp) as Hli.
  pose proof (writes_done_step calls phases i c _ (Finished r) (call_query c) Hc Hp eq_refl) as HW.
  rewrite decide_True in HW by done.
  destruct Hfin as (_ & _ & _ & Hmono & Hl').
  destruct (usc_write_cases (call_newid c) (call_query c) (call_movie c) ds docs)
    as [Hs|[(d & rest & k & d'' & -> & Hk & Hid & Hs)|(-> & Hfresh & Hs)]];
    rewrite E in Hs; simpl in Hs; subst docs'.
  - split_and!; [by rewrite length_insert|done|done|done|done].
  - apply Forall_cons in Hli as [(Hq & Htd & Hcd & Hin) _].
    pose proof (listed_doc_in_store docs d k d'' Hu Hin Hk Hid) as Hterm.
    split_and!; [by rewrite length_insert|by apply ids_unique_insert_set_count|
      apply Forall_insert; [done|]; apply set_count_typed, js_add_one_typed, Htd| |].
    + apply Forall_insert; [done|]. unfold count_ok in *.
      assert (Hst : searchTerm (set_count (js_add (count d) 1) d'') = call_query c)
        by (destruct d''; simpl in *; congruence).
      rewrite Hst. replace (count (set_count _ d'')) with (js_add (count d) 1) by (by destruct d'').
      rewrite Hq in Hcd. pose proof (js_add_one_le _ Htd). lia.
    + intros j c' ds' Hc' Hj. eapply Forall_impl; [exact (Hl' j c' ds' Hc' Hj)|]. intros d0.
      apply listing_ok_mono; [done|]. by rewrite (id_term_insert_set_count _ _ _ _ Hk).
  - split_and!; [by rewrite length_insert|by apply ids_unique_snoc|
      apply Forall_app; split; [done|]; repeat constructor; unfold max_safe; simpl; lia| |].
    + apply Forall_app. split; [done|]. apply Forall_singleton. unfold count_ok. simpl.
      specialize (HB (call_query c)). lia.
    + intros j c' ds' Hc' Hj. eapply Forall_impl; [exact (Hl' j c' ds' Hc' Hj)|]. intros d0.
      apply listing_ok_mono; [done|]. rewrite fmap_app. set_solver.
Qed.

(** One segment of one call keeps the invariant. *)
Lemma bound_step calls B phases docs i c p :
  (forall q, 0 <= B q) -> bound_inv calls B phases docs ->
  calls !! i = Some c -> phases !! i = Some p ->
  bound_inv calls B (<[i:=(step_call c p docs).1]> phases) (step_call c p docs).2.
Proof.
  intros HB Hinv Hc Hp. destruct p as [|[ds|t]|r].
  - by apply bound_listing.
  - destruct (usc_write (call_newid c) (call_query c) (call_movie c) ds docs) as [r docs'] eqn:E.
    rewrite (step_call_write _ _ _ _ _ E). exact (bound_write calls B phases docs i c ds r docs' HB Hinv Hc Hp E).
  - by apply (bound_finish _ _ _ _ _ c (Queried (Rejected t))).
  - simpl. by rewrite (list_insert_id phases i _ Hp).
Qed.

Lemma bound_run calls B sched : forall phases docs,
  (forall q, 0 <= B q) -> bound_inv calls B phases docs ->
  bound_inv calls B (run_schedule calls phases sched docs).1 (run_schedule calls phases sched docs).2.
Proof.
  induction sched as [|i sched IH]; intros phases docs HB Hinv; [done|]. simpl.
  destruct (calls !! i) as [c|] eqn:Hc, (phases !! i) as [p|] eqn:Hp; try by apply IH.
  pose proof (bound_step calls B phases docs i c p HB Hinv Hc Hp) as Hs.
  destruct (step_call c p docs) as [p' docs']. by apply IH.
Qed.

Lemma bound_init calls (docs : list document) :
  ids_unique docs -> Forall count_typed docs ->
  bound_inv calls (term_max docs) (replicate (length calls) Idle) docs.
Proof.
  intros Hu Ht. split_and!; [by rewrite length_replicate|done|done| |].
  - apply Forall_forall. intros d Hd. unfold count_ok. pose proof (term_max_ge docs d Hd). lia.
  - intros i c ds _ Hi. apply lookup_replicate in Hi as [? _]. discriminate.
Qed.

Lemma writes_done_le calls phases q :
  (writes_done calls phases q <= length (filter (fun c => call_query c = q) calls))%nat.
Proof.
  unfold writes_done. revert phases.
  induction calls as [|c calls IH]; intros [|p phases]; simpl; try lia.
  rewrite !filter_cons. specialize (IH phases). repeat case_decide; simpl; tauto || lia.
Qed.

Lemma screen_calls_filter recs ids q :
  (length (filter (fun c => call_query c = q) (screen_calls recs ids)) <=
   length (filter (fun r => r.1 = q) recs))%nat.
Proof.
  revert ids. induction recs as [|r recs IH]; intros [|i ids]; simpl; try lia.
  rewrite !filter_cons. specialize (IH ids). repeat case_decide; simpl in *; tauto || lia.
Qed.

(** C31.  Interleaving can lose searches but never invents them: however
    the event loop interleaves the listings and writes of the
    [updateSearchCount] calls the screen makes, whatever [ID.unique()]
    returns, no document ever counts more searches for its term than the
    largest count the collection had for it plus the number of times the
    screen recorded that term. *)
Theorem screen_calls_never_overcount t0 es (docs : list document) ids sched :
  let recs := recorded (srun (mount_screen t0) es) in
  ids_unique docs -> Forall count_typed docs ->
  Forall (fun d => count d <= term_max docs (searchTerm d) +
                             Z.of_nat (length (filter (fun r => r.1 = searchTerm d) recs)))
    (replay docs (screen_calls recs ids) sched).2.
Proof.
  intros recs Hu Ht. unfold replay.
  destruct (bound_run (screen_calls recs ids) (term_max docs) sched _ docs (term_max_nonneg docs)
              (bound_init _ docs Hu Ht)) as (_ & _ & _ & Hb & _).
  eapply Forall_impl; [exact Hb|]. intros d. unfold count_ok.
  pose proof (writes_done_le (screen_calls recs ids)
    (run_schedule (screen_calls recs ids) (replicate (length (screen_calls recs ids)) Idle) sched docs).1
    (searchTerm d)).
  pose proof (screen_calls_filter recs ids (searchTerm d)). lia.
Qed.

End RecordingFacts.

Module RecordingWitnesses.
Import Appwrite SearchScreen SearchScreenFacts Recording RecordingFacts Debounce.
Local Open Scope Z_scope.

(** Three searches, "batman", "bat" and "batman" again, each held for
    500 ms and answered before the next. *)
Definition three_searches : list sevent :=
  [SInput 1000 (Change ⟪"batman"⟫); STick 1500; SSettle 0 (Resolved [the_batman]);
   SInput 2000 (Change ⟪"bat"⟫); STick 2500; SSettle 1 (Resolved [bat_movie]);
   SInput 3000 (Change ⟪"batman"⟫); STick 3500; SSettle 2 (Resolved [the_batman])].

Lemma screen_searches_counted_witness :
  recorded (srun (mount_screen 0) three_searches) =
    [(⟪"batman"⟫, the_batman); (⟪"bat"⟫, bat_movie); (⟪"batman"⟫, the_batman)] /\
  term_count (replay [] (screen_calls (recorded (srun (mount_screen 0) three_searches))
                            [⟪"a"⟫; ⟪"b"⟫; ⟪"c"⟫]) (sequential 3)).2 ⟪"batman"⟫ = 2.
Proof.
  assert (Hr : recorded (srun (mount_screen 0) three_searches) =
    [(⟪"batman"⟫, the_batman); (⟪"bat"⟫, bat_movie); (⟪"batman"⟫, the_batman)]) by (vm_compute; reflexivity).
  split; [exact Hr|].
  destruct (screen_searches_counted 0 three_searches [] [⟪"a"⟫; ⟪"b"⟫; ⟪"c"⟫])
    as [Hc _].
  - by rewrite Hr.
  - apply (bool_decide_unpack _). vm_compute. exact I.
  - apply Forall_forall. intros i _. apply not_elem_of_nil.
  - constructor.
  - intros q. cbv zeta. rewrite Hr. unfold term_count, max_safe. simpl. lia.
  - rewrite Hr in Hc |- *. rewrite Hc. vm_compute. reflexivity.
Defined.

(** The two "batman" calls interleaved on a collection that counts 3:
    one increment is lost, and the count, 4, stays within 3 + 2. *)
Lemma screen_calls_never_overcount_witness :
  ids_unique [AppwriteWitnesses.batman_doc 3] /\
  Forall count_typed [AppwriteWitnesses.batman_doc 3] /\
  (replay [AppwriteWitnesses.batman_doc 3]
     (screen_calls (recorded (srun (mount_screen 0) three_searches)) [⟪"a"⟫; ⟪"b"⟫; ⟪"c"⟫])
     [0; 2; 0; 2; 1; 1]%nat).2 =
    [set_count 4 (AppwriteWitnesses.batman_doc 3); new_document ⟪"b"⟫ ⟪"bat"⟫ bat_movie] /\
  Forall (fun d => count d <= term_max [AppwriteWitnesses.batman_doc 3] (searchTerm d) +
          Z.of_nat (length (filter (fun r => r.1 = searchTerm d)
                                   (recorded (srun (mount_screen 0) three_searches)))))
    (replay [AppwriteWitnesses.batman_doc 3]
       (screen_calls (recorded (srun (mount_screen 0) three_searches)) [⟪"a"⟫; ⟪"b"⟫; ⟪"c"⟫])
       [0; 2; 0; 2; 1; 1]%nat).2.
Proof.
  assert (Hu : ids_unique [AppwriteWitnesses.batman_doc 3]) by (repeat constructor; set_solver).
  assert (Ht : Forall count_typed [AppwriteWitnesses.batman_doc 3])
    by (repeat constructor; unfold count_typed, max_safe; simpl; lia).
  split_and!; [exact Hu|exact Ht|vm_compute; reflexivity|].
  exact (screen_calls_never_overcount 0 three_searches _ _ _ Hu Ht).
Defined.

End RecordingWitnesses.
