(* ===== verification/Home.v ===== *)
(** * The home screen: [src/app/(tabs)/index.tsx]

    The screen mounts two [useFetch] hooks, both with [autoFetch] left at
    its default [true]: one over [getTrendingMovies], one over
    [fetchMovies({query: ''})].  [getTrendingMovies] is imported from
    [services/appwrite], which does not export it: the binding is
    [undefined] (the bundler's CommonJS interop), and [fetchData]'s call
    [fetchFunction()] throws a [TypeError] inside its [try], before any
    [await], so the trending hook settles in the mount effect itself.  The
    [TypeError] object, whose message depends on the JavaScript engine, is
    a section variable, as are [fetch] and the API key of [Api].

    The view is the ternary of the JSX: a loader while either hook
    loads, [Error: {moviesError?.message || trendingError?.message}] when
    either has an error, and the content otherwise. *)

From stdpp Require Import base list.
From Stdlib Require Import ZArith Lia.
From S2P Require Import Prelude FetchState Appwrite Api.

Module Home.
Import UseFetch.
Local Open Scope Z_scope.

(** What the home screen renders, reduced to its data. *)
Inductive home_view :=
| HLoading
| HError (message : option jstring)
| HContent (trending_title : bool) (trending : option (list Appwrite.document))
    (latest : option (list Movie.t)).

(** [a || b] on two values that are strings or [undefined]: the empty
    string is falsy. *)
Definition js_or_str (a b : option jstring) : option jstring :=
  match a with
  | Some (_ :: _) => a
  | _ => b
  end.

Section Screen.
Variable movie_api_key : option jstring.
Variable fetch : jstring -> list (jstring * jstring) -> settled Api.response.
(** The [TypeError] thrown by calling [undefined]. *)
Variable type_error : js_error.

Record home := Home {
  trending_hook : config (list Appwrite.document);
  movies_hook : config (list Movie.t);
}.

(** The trending hook's mount effect: [fetchData()] with [fetchFunction]
    [undefined]; the call throws synchronously, so the [catch] and
    [finally] blocks run before the effect returns. *)
Definition mount_trending : config (list Appwrite.document) :=
  let c := mount true in
  default c (step_event c (EvSettle 0 (Rejected (ThrownError type_error)))).

(** [Index()] on mount: both effects run, [fetchMovies({query: ''})] is
    in flight as call 0 of the second hook. *)
Definition mount_home : home := Home mount_trending (mount true).

(** The promise of call [k] of the movies hook settles with what
    [fetchMovies({query: ''})] gives; an unknown call changes nothing. *)
Definition home_step (h : home) (k : nat) : home :=
  let o := Api.fetchMovies movie_api_key fetch [] in
  Home (trending_hook h) (default (movies_hook h) (step_event (movies_hook h) (EvSettle k o))).

Definition home_run (h : home) (ks : list nat) : home := foldl home_step h ks.

(** The JSX of [Index]: the ternary on the two hooks' states. *)
Definition home_view_of (h : home) : home_view :=
  let m := st (movies_hook h) in
  let t := st (trending_hook h) in
  if loading m || loading t then HLoading
  else if bool_decide (is_Some (error m)) || bool_decide (is_Some (error t)) then
    HError (js_or_str (err_message <$> error m) (err_message <$> error t))
  else HContent (bool_decide (is_Some (data t))) (data t) (data m).

(** The navigation stack of [expo-router] and the [SearchBar]'s
    [onPress={() => router.push('/search')}]: the bar is rendered only in
    the content branch, so in the other views there is nothing to press. *)
Definition press_search_bar (v : home_view) (stack : list jstring) : option (list jstring) :=
  match v with
  | HContent _ _ _ => Some (stack ++ [⟪"/search"⟫])
  | _ => None
  end.

End Screen.
End Home.

(** ** Theorems *)
Module HomeFacts.
Import UseFetch Home.
Local Open Scope Z_scope.

Section Facts.
Variable movie_api_key : option jstring.
Variable fetch : jstring -> list (jstring * jstring) -> settled Api.response.
Variable type_error : js_error.

Lemma mount_trending_state :
  st (mount_trending type_error) = FetchState None false (Some type_error).
Proof. reflexivity. Qed.

(** Nothing after the mount touches the trending hook. *)
Lemma home_run_trending ks : forall h,
  trending_hook (home_run movie_api_key fetch h ks) = trending_hook h.
Proof. induction ks as [|k ks IH]; intros h; [done|]. apply (IH (home_step _ _ h k)). Qed.

(** The state of the movies hook after its mount call settled. *)
Lemma home_run_settled o :
  Api.fetchMovies movie_api_key fetch [] = o ->
  st (movies_hook (home_run movie_api_key fetch (mount_home type_error) [0%nat])) =
    fetchData_settle o (fetchData_start initial_state).
Proof. intros <-. reflexivity. Qed.

Lemma home_view_not_content ks tt tr lt :
  home_view_of (home_run movie_api_key fetch (mount_home type_error) ks) <> HContent tt tr lt.
Proof.
  unfold home_view_of. rewrite home_run_trending. cbn [trending_hook mount_home].
  rewrite mount_trending_state. cbn [loading error]. rewrite orb_false_r. destruct (loading _); [done|].
  rewrite orb_true_r. done.
Qed.

(** C32.  The home screen never shows its content: the trending hook's
    producer is [undefined], its error is set on mount and nothing clears
    it, so whatever the network does, the view is the loader or the error
    message, never the trending and latest lists; the search bar is never
    rendered, and the home screen never navigates to [/search]. *)
Theorem home_content_unreachable ks tt tr lt (stack : list jstring) :
  home_view_of (home_run movie_api_key fetch (mount_home type_error) ks) <> HContent tt tr lt /\
  press_search_bar (home_view_of (home_run movie_api_key fetch (mount_home type_error) ks)) stack = None.
Proof.
  split; [apply home_view_not_content|].
  destruct (home_view_of _) as [|m|tt' tr' lt'] eqn:E; [done|done|].
  by destruct (home_view_not_content ks tt' tr' lt').
Qed.

(** C33.  The views of the home screen: the loader while [fetchMovies]
    runs; once it resolves, the error message of the [TypeError] (the
    loaded movies are not shown); once it rejects with a non-empty
    message, that message. *)
Theorem home_view_cases :
  home_view_of (mount_home type_error) = HLoading /\
  (forall r, Api.fetchMovies movie_api_key fetch [] = Resolved r ->
   home_view_of (home_run movie_api_key fetch (mount_home type_error) [0%nat]) =
     HError (Some (err_message type_error))) /\
  (forall e, Api.fetchMovies movie_api_key fetch [] = Rejected (ThrownError e) ->
   err_message e <> [] ->
   home_view_of (home_run movie_api_key fetch (mount_home type_error) [0%nat]) =
     HError (Some (err_message e))).
Proof.
  split; [reflexivity|]. split.
  - intros r Hr. unfold home_view_of. rewrite home_run_trending, (home_run_settled _ Hr).
    cbn [trending_hook mount_home]. rewrite mount_trending_state. reflexivity.
  - intros e He Hm. unfold home_view_of. rewrite home_run_trending, (home_run_settled _ He).
    cbn [trending_hook mount_home]. rewrite mount_trending_state. simpl.
    destruct (err_message e) as [|c m]; [done|]. reflexivity.
Qed.

End Facts.
End HomeFacts.

Module HomeWitnesses.
Import UseFetch Home HomeFacts.

(** The [TypeError] of Hermes, React Native's engine, for a call of
    [undefined]. *)
Definition hermes_type_error : js_error := JsError ⟪"undefined is not a function"⟫.

(** With a server whose popularity listing loads, the home screen shows
    [Error: undefined is not a function]; with a server answering 404, the
    status error. *)
Lemma home_view_cases_witness :
  Api.fetchMovies None ApiWitnesses.batman_server [] = Resolved [ApiWitnesses.batman_movie] /\
  home_view_of (home_run None ApiWitnesses.batman_server (mount_home hermes_type_error) [0%nat]) =
    HError (Some ⟪"undefined is not a function"⟫) /\
  home_view_of (home_run None ApiWitnesses.not_found_server (mount_home hermes_type_error) [0%nat]) =
    HError (Some ⟪"Failed to fetch movies | Status: 404"⟫).
Proof.
  assert (H1 : Api.fetchMovies None ApiWitnesses.batman_server [] = Resolved [ApiWitnesses.batman_movie])
    by reflexivity.
  assert (H2 : Api.fetchMovies None ApiWitnesses.not_found_server [] =
               Rejected (ThrownError (JsError ⟪"Failed to fetch movies | Status: 404"⟫)))
    by reflexivity.
  split; [exact H1|]. split.
  - exact (proj1 (proj2 (home_view_cases None ApiWitnesses.batman_server hermes_type_error)) _ H1).
  - exact (proj2 (proj2 (home_view_cases None ApiWitnesses.not_found_server hermes_type_error)) _ H2
             ltac:(discriminate)).
Defined.

End HomeWitnesses.
