(* ===== verification/ListKeys.v ===== *)
(** * The keys of the movie lists

    Both screens render [FlatList]s whose [keyExtractor] prints a number
    with [toString]: [item.id.toString()] for the TMDB results of
    [src/app/(tabs)/search.tsx] and for the latest movies of
    [src/app/(tabs)/index.tsx], [item.movie_id.toString()] for the trending
    documents of the home screen.  [Number.prototype.toString] on an
    integer is [Api.Z_to_dec].  React needs the keys of a list to be
    distinct; the trending list's are not, once two search terms of the
    collection share their first result. *)

From stdpp Require Import base list sets.
From Stdlib Require Import ZArith Lia.
From S2P Require Import Prelude FetchState Appwrite Api SearchScreen Home.

Module ListKeys.
Local Open Scope Z_scope.

(** [keyExtractor={(item) => item.id.toString()}] *)
Definition movie_key (m : Movie.t) : jstring := Api.Z_to_dec (Movie.id m).


(** The keys of a [FlatList] over [data]; [null] data has no item. *)
Definition list_keys {A} (key : A -> jstring) (data : option (list A)) : list jstring :=
  key <$> default [] data.

(** The keys of the search screen's list: its [data={movies}] is the
    [items] of the view. *)
Definition search_keys (v : SearchScreen.search_view) : list jstring :=
  list_keys movie_key (Some (SearchScreen.items v)).


End ListKeys.

(** ** Theorems *)
Module ListKeysFacts.
Import Appwrite AppwriteFacts ListKeys.
Local Open Scope Z_scope.



End ListKeysFacts.

Module ListKeysWitnesses.
Import Appwrite ListKeys ListKeysFacts.


End ListKeysWitnesses.
